(** * Pattern Renamer: the rename engine of [MainModel]

    A shallow embedding of [src/pattern_renamer/main/main_model.py] and of the
    library calls it makes, followed by the properties of the engine.

    - Python [str] is modelled by [string]; a [list[str]] by [list string].
    - [pathlib.Path] is modelled after CPython 3.11, POSIX flavour
      ([PurePosixPath]): a path object is its parsed root and parts.
    - A [str] is the sequence of the bytes of its UTF-8 encoding; a string
      that UTF-8 cannot encode (a lone surrogate) is outside this model.
    - [re], [pathvalidate] and the operating system are an interface
      ([Host]); [LiteralHost] is one executable instance of it.
    - The file system is flat: it maps directory entries to files and
      symbolic links. Directories are not entries of their own, and how
      the directories of a path resolve does not change: renaming a
      directory, or a link to one, which takes what is below it along, is
      outside this model.
    - The model object, the file system and the log of [re] calls are
      threaded through a state-and-exception monad [M].

    The definitions come first; the facts start at "Examples of the library
    models". *)

From Stdlib Require Import Ascii.
From stdpp Require Import gmap strings list fin_maps.

(** ** Strings *)

Module Str.

Definition sep : ascii := "/"%char.

(** [s[1:]] *)
Definition tl (s : string) : string :=
  match s with
  | EmptyString => EmptyString
  | String _ s' => s'
  end.

(** [s.startswith("/")], also [s[:1] == "/"] *)
Definition starts_sep (s : string) : bool :=
  match s with
  | EmptyString => false
  | String c _ => bool_decide (c = sep)
  end.

(** [s.lstrip("/")] *)
Fixpoint lstrip (s : string) : string :=
  match s with
  | EmptyString => EmptyString
  | String c s' => if bool_decide (c = sep) then lstrip s' else s
  end.

(** [s.endswith("/")] *)
Fixpoint ends_sep (s : string) : bool :=
  match s with
  | EmptyString => false
  | String c EmptyString => bool_decide (c = sep)
  | String _ s' => ends_sep s'
  end.

(** ["/" in s] *)
Fixpoint has_sep (s : string) : bool :=
  match s with
  | EmptyString => false
  | String c s' => bool_decide (c = sep) || has_sep s'
  end.

(** [s.split("/")]: never the empty list *)
Fixpoint split (s : string) : list string :=
  match s with
  | EmptyString => [EmptyString]
  | String c s' =>
      if bool_decide (c = sep) then EmptyString :: split s'
      else match split s' with
           | x :: r => String c x :: r
           | [] => [String c EmptyString]
           end
  end.

(** ["/".join(l)] *)
Fixpoint join (l : list string) : string :=
  match l with
  | [] => EmptyString
  | [x] => x
  | x :: r => x +:+ String sep (join r)
  end.

(** [s[:n]] and [s[n:]] *)
Fixpoint take (n : nat) (s : string) : string :=
  match n, s with
  | S n', String c s' => String c (take n' s')
  | _, _ => EmptyString
  end.

Fixpoint drop (n : nat) (s : string) : string :=
  match n, s with
  | S n', String _ s' => drop n' s'
  | _, _ => s
  end.

(** [s.rfind(".")], [None] for -1 *)
Fixpoint rfind_dot (s : string) : option nat :=
  match s with
  | EmptyString => None
  | String c s' =>
      match rfind_dot s' with
      | Some i => Some (S i)
      | None => if bool_decide (c = "."%char) then Some 0 else None
      end
  end.

(** [s.startswith(p)] *)
Fixpoint starts_with (p s : string) : bool :=
  match p, s with
  | EmptyString, _ => true
  | String a p', String b s' => bool_decide (a = b) && starts_with p' s'
  | String _ _, EmptyString => false
  end.

Fixpoint has_char (c : ascii) (s : string) : bool :=
  match s with
  | EmptyString => false
  | String a s' => bool_decide (a = c) || has_char c s'
  end.

(** The null character, and ["\0" in s] *)
Definition NUL : ascii := ascii_of_nat 0.
Definition has_nul (s : string) : bool := has_char NUL s.

(** [s * n] *)
Fixpoint mul (s : string) (n : nat) : string :=
  match n with
  | 0 => EmptyString
  | S n' => s +:+ mul s n'
  end.

End Str.

(** ** pathlib (CPython 3.11, POSIX flavour)

    A path object holds [_root] and [_parts]; the drive is always empty on
    POSIX and is left out. When the path has a root, the root is also the
    first element of [_parts]. *)

Record PurePath := mkPath { _root : string; _parts : list string }.

Module Path.

(** [_PosixFlavour.splitroot]: the root and the rest of one segment.
    Exactly two leading slashes make the root ["//"]. *)
Definition splitroot (part : string) : string * string :=
  if Str.starts_sep part then
    let stripped_part := Str.lstrip part in
    if bool_decide (String.length part - String.length stripped_part = 2)
    then ("//", stripped_part)
    else ("/", stripped_part)
  else ("", part).

(** The components of [rel] that [parse_parts] keeps. *)
Definition components (rel : string) : list string :=
  filter (λ x, x ≠ "" ∧ x ≠ ".") (Str.split rel).

(** The loop of [_Flavour.parse_parts], which walks the segments from the
    last one and stops at the first one that has a root: the root found
    and the components in their final order. *)
Fixpoint parse_reversed (rparts : list string) : string * list string :=
  match rparts with
  | [] => ("", [])
  | part :: rest =>
      if bool_decide (part = "") then parse_reversed rest
      else
        let '(root, rel) := splitroot part in
        if bool_decide (root ≠ "") then (root, components rel)
        else
          let '(root', parsed) := parse_reversed rest in
          (root', parsed ++ components rel)
  end.

(** [_Flavour.parse_parts] *)
Definition parse_parts (parts : list string) : PurePath :=
  let '(root, parsed) := parse_reversed (rev parts) in
  mkPath root (if bool_decide (root ≠ "") then root :: parsed else parsed).

(** [Path(s)] *)
Definition of_str (s : string) : PurePath := parse_parts [s].

(** [PurePath._format_parsed_parts] *)
Definition _format_parsed_parts (root : string) (parts : list string) : string :=
  if bool_decide (root ≠ "") then root +:+ Str.join (tail parts)
  else Str.join parts.

(** [str(p)], also [os.fspath(p)] *)
Definition str (p : PurePath) : string :=
  let s := _format_parsed_parts (_root p) (_parts p) in
  if bool_decide (s = "") then "." else s.

(** [p.name] *)
Definition name (p : PurePath) : string :=
  if bool_decide (length (_parts p) = (if bool_decide (_root p ≠ "") then 1 else 0))
  then ""
  else List.last (_parts p) "".

(** [p.parent] *)
Definition parent (p : PurePath) : PurePath :=
  if bool_decide (length (_parts p) = 1) && bool_decide (_root p ≠ "") then p
  else mkPath (_root p) (removelast (_parts p)).

(** [_Flavour.join_parsed_parts], without drives *)
Definition join_parsed_parts (p p2 : PurePath) : PurePath :=
  if bool_decide (_root p2 ≠ "") then p2
  else mkPath (_root p) (_parts p ++ _parts p2).

(** [p._make_child(args)], the segments of [args] already collected by
    [_parse_args]: a string is one segment, a path gives its [_parts]. *)
Definition _make_child (p : PurePath) (segments : list string) : PurePath :=
  join_parsed_parts p (parse_parts segments).

(** [p / key] for a string and for a path *)
Definition div_str (p : PurePath) (key : string) : PurePath := _make_child p [key].
Definition div_path (p key : PurePath) : PurePath := _make_child p (_parts key).

(** [p.suffix] and [p.stem] *)
Definition suffix (p : PurePath) : string :=
  let n := name p in
  match Str.rfind_dot n with
  | Some i =>
      if bool_decide (0 < i) && bool_decide (i < String.length n - 1)
      then Str.drop i n else ""
  | None => ""
  end.

Definition stem (p : PurePath) : string :=
  let n := name p in
  match Str.rfind_dot n with
  | Some i =>
      if bool_decide (0 < i) && bool_decide (i < String.length n - 1)
      then Str.take i n else n
  | None => n
  end.

(** [p.with_name(n)]: [None] stands for [ValueError] *)
Definition with_name (p : PurePath) (n : string) : option PurePath :=
  if bool_decide (name p = "") then None
  else
    let q := parse_parts [n] in
    if bool_decide (n = "") || Str.ends_sep n || bool_decide (_root q ≠ "")
       || negb (bool_decide (length (_parts q) = 1))
    then None
    else Some (mkPath (_root p) (removelast (_parts p) ++ [n])).

(** [p.with_stem(s)] *)
Definition with_stem (p : PurePath) (s : string) : option PurePath :=
  with_name p (s +:+ suffix p).

End Path.

(** A plain name: one component that parsing keeps as it is. *)
Definition plain (x : string) : bool :=
  negb (bool_decide (x = "")) && negb (bool_decide (x = ".")) && negb (Str.has_sep x).

(** The element that a root contributes to [_parts]. *)
Definition anchor (root : string) : list string :=
  if bool_decide (root ≠ "") then [root] else [].

(** What [parse_parts] produces: a root among the three, then plain names. *)
Definition normal (p : PurePath) : Prop :=
  (_root p = "" ∨ _root p = "/" ∨ _root p = "//")
  ∧ ∃ tail, _parts p = anchor (_root p) ++ tail ∧ Forall (λ x, plain x = true) tail.

(** ** Exceptions, enumerations and the model object *)

Inductive exn := re_error | IndexError | ValueError | TypeError | OSError | OverflowError.

Global Instance exn_eq_dec : EqDecision exn.
Proof. solve_decision. Defined.

(** Modelled from the spec: [types/rename_target.py] is not among the
    sources; the spec gives the three modes. *)
Inductive RenameTarget := FULL | NAME | STEM.

(** Modelled from the spec: [types/mistakes.py] is not among the sources; the
    spec gives the five kinds, three of them carrying the index of the
    entry at fault. *)
Inductive Mistake :=
  | InvalidRegexMistake
  | InvalidReplacePatternMistake
  | DuplicateMistake (culprit_index : nat)
  | ExistsMistake (culprit_index : nat)
  | InvalidDestinationMistake (culprit_index : nat).

Global Instance Mistake_eq_dec : EqDecision Mistake.
Proof. solve_decision. Defined.

(** Modelled from the spec: [types/app_state.py] is not among the sources;
    the spec gives the three states of a session. *)
Inductive AppState := EMPTY | RENAMING | RENAMED.

(** The properties of [MainModel]. [renamed_paths] and [mistakes] are GObject
    properties of type [object]: they hold [None] until [recompute] assigns
    them. *)
Record MainModel := mkModel {
  picked_paths : list string;
  regex : string;
  replace_pattern : string;
  rename_target : RenameTarget;
  renamed_paths : option (list string);
  mistakes : option (list Mistake);
  is_apply_enabled : bool;
  is_undo_enabled : bool;
  app_state : AppState
}.

Definition set_picked_paths (v : list string) (m : MainModel) : MainModel :=
  mkModel v (regex m) (replace_pattern m) (rename_target m)
          (renamed_paths m) (mistakes m) (is_apply_enabled m) (is_undo_enabled m) (app_state m).
Definition set_regex (v : string) (m : MainModel) : MainModel :=
  mkModel (picked_paths m) v (replace_pattern m) (rename_target m)
          (renamed_paths m) (mistakes m) (is_apply_enabled m) (is_undo_enabled m) (app_state m).
Definition set_replace_pattern (v : string) (m : MainModel) : MainModel :=
  mkModel (picked_paths m) (regex m) v (rename_target m)
          (renamed_paths m) (mistakes m) (is_apply_enabled m) (is_undo_enabled m) (app_state m).
Definition set_rename_target (v : RenameTarget) (m : MainModel) : MainModel :=
  mkModel (picked_paths m) (regex m) (replace_pattern m) v
          (renamed_paths m) (mistakes m) (is_apply_enabled m) (is_undo_enabled m) (app_state m).
Definition set_renamed_paths (v : option (list string)) (m : MainModel) : MainModel :=
  mkModel (picked_paths m) (regex m) (replace_pattern m) (rename_target m)
          v (mistakes m) (is_apply_enabled m) (is_undo_enabled m) (app_state m).
Definition set_mistakes (v : option (list Mistake)) (m : MainModel) : MainModel :=
  mkModel (picked_paths m) (regex m) (replace_pattern m) (rename_target m)
          (renamed_paths m) v (is_apply_enabled m) (is_undo_enabled m) (app_state m).
Definition set_is_apply_enabled (v : bool) (m : MainModel) : MainModel :=
  mkModel (picked_paths m) (regex m) (replace_pattern m) (rename_target m)
          (renamed_paths m) (mistakes m) v (is_undo_enabled m) (app_state m).
Definition set_is_undo_enabled (v : bool) (m : MainModel) : MainModel :=
  mkModel (picked_paths m) (regex m) (replace_pattern m) (rename_target m)
          (renamed_paths m) (mistakes m) (is_apply_enabled m) v (app_state m).
Definition set_app_state (v : AppState) (m : MainModel) : MainModel :=
  mkModel (picked_paths m) (regex m) (replace_pattern m) (rename_target m)
          (renamed_paths m) (mistakes m) (is_apply_enabled m) (is_undo_enabled m) v.

(** ** The world a method runs in *)

(** A call into [re]: [re.compile(pattern)] or [regex.sub(repl, string)]. *)
Inductive re_call :=
  | compile_call (pattern : string)
  | sub_call (repl subject : string).

Definition is_sub_call (c : re_call) : bool :=
  match c with sub_call _ _ => true | compile_call _ => false end.

(** What a directory entry holds: a file, or a symbolic link with the path
    it points to. *)
Inductive node := File (content : nat) | Symlink (target : string).

(** The file system maps a directory entry to what it holds. *)
Record World := mkWorld {
  self : MainModel;
  fs : gmap string node;
  re_log : list re_call
}.

(** A method: it may change the world, and returns or raises. *)
Definition M (A : Type) : Type := World → World * (exn + A).

Global Instance M_ret : MRet M := λ A a w, (w, inr a).
Global Instance M_bind : MBind M := λ A B f m w,
  match m w with
  | (w', inl e) => (w', inl e)
  | (w', inr a) => f a w'
  end.

Definition gets {A} (f : World → A) : M A := λ w, (w, inr (f w)).
Definition raise {A} (e : exn) : M A := λ w, (w, inl e).
Definition lift {A} (r : exn + A) : M A := λ w, (w, r).
Definition modify_self (f : MainModel → MainModel) : M unit :=
  λ w, (mkWorld (f (self w)) (fs w) (re_log w), inr tt).
Definition log (c : re_call) : M unit :=
  λ w, (mkWorld (self w) (fs w) (re_log w ++ [c]), inr tt).

(** [try: body / except e: handler / else: orelse]; the [else] suite is not
    guarded. *)
Definition try_except_else {A B} (body : M A) (e : exn) (handler : M B)
    (orelse : A → M B) : M B := λ w,
  match body w with
  | (w', inl e') => if bool_decide (e' = e) then handler w' else (w', inl e')
  | (w', inr a) => orelse a w'
  end.

(** [for x in l: body(x)] *)
Fixpoint for_ {A} (l : list A) (body : A → M unit) : M unit :=
  match l with
  | [] => mret tt
  | x :: l' => body x ;; for_ l' body
  end.

(** [[f(x) for x in l]] *)
Fixpoint comprehension {A B} (f : A → M B) (l : list A) : M (list B) :=
  match l with
  | [] => mret []
  | x :: l' => y ← f x; ys ← comprehension f l'; mret (y :: ys)
  end.

(** ** The libraries and the operating system *)

Class Host := {
  (** [re.Pattern] *)
  Pattern : Type;
  (** [re.compile(pattern)] *)
  re_compile : string → exn + Pattern;
  (** [regex.sub(repl, string)] *)
  Pattern_sub : Pattern → string → string → exn + string;
  (** [unicodedata.normalize("NFC", string)] *)
  normalize_NFC : string → string;
  (** [pathvalidate.validate_filepath(file_path, platform="auto")]: [false]
      when it raises [ValidationError] *)
  validate_filepath : string → bool;
  (** What the operating system resolves a normalised path to, up to its
      final component (symbolic links among the directories, case
      folding, ...) *)
  resolve : string → string;
  (** [os.stat(path)] raises an [OSError] that [Path.exists] raises again:
      any but a missing file, a missing directory and too many links (a
      name too long, no permission, ...) *)
  stat_raises : gmap string node → string → bool;
  (** The renames that the operating system refuses with an [OSError]
      although the source is there (permissions, a missing directory, a
      directory at the destination, ...) *)
  os_refuses : gmap string node → string → string → bool
}.

(** ** The methods of [MainModel] *)

Section MainModel.
Context `{Host}.

(** [regex.sub(repl, string)], logged *)
Definition sub (regex : Pattern) (repl subject : string) : M string :=
  log (sub_call repl subject) ;; lift (Pattern_sub regex repl subject).

(** [re.compile(pattern=...)], logged *)
Definition compile (pattern : string) : M Pattern :=
  log (compile_call pattern) ;; lift (re_compile pattern).

Definition _rename_using_full_path (regex : Pattern) (replace_pattern path : string)
    : M string :=
  sub regex replace_pattern path.

Definition _rename_using_name (regex : Pattern) (replace_pattern path : string)
    : M string :=
  let p := Path.of_str path in
  name ← sub regex replace_pattern (Path.name p);
  mret (Path.str (Path.div_str (Path.parent p) name)).

Definition _rename_using_stem (regex : Pattern) (replace_pattern path : string)
    : M string :=
  let p := Path.of_str path in
  stem ← sub regex replace_pattern (Path.stem p);
  match Path.with_stem p stem with
  | None => raise ValueError
  | Some name => mret (Path.str (Path.div_path (Path.parent p) name))
  end.

Definition _rename (regex : Pattern) (path replace_pattern : string)
    (target : RenameTarget) : M string :=
  match target with
  | FULL => _rename_using_full_path regex replace_pattern path
  | NAME => _rename_using_name regex replace_pattern path
  | STEM => _rename_using_stem regex replace_pattern path
  end.

(** The directory entry that a path string denotes: the operating system
    passes over empty and ["."] components as pathlib does, and then
    resolves the directories. *)
Definition entry (path : string) : string :=
  resolve (Path.str (Path.of_str path)).

(** The entry that the symbolic link at the entry [link] points to: a
    target that is not absolute starts at the directory of the link. *)
Definition link_entry (link target : string) : string :=
  entry (Path.str (Path.div_str (Path.parent (Path.of_str link)) target)).

(** Linux follows 40 symbolic links at most. *)
Definition MAXSYMLINKS : nat := 40.

(** [os.stat] finds a file: it follows the symbolic links, [links] of them
    at most, and fails on a link that leads nowhere. *)
Fixpoint stat_follows (files : gmap string node) (links : nat) (e : string) : bool :=
  match files !! e with
  | None => false
  | Some (File _) => true
  | Some (Symlink target) =>
      match links with
      | 0 => false
      | S links' => stat_follows files links' (link_entry e target)
      end
  end.

(** The part of a path that [_rename] hands to [regex.sub] *)
Definition subject (target : RenameTarget) (path : string) : string :=
  match target with
  | FULL => path
  | NAME => Path.name (Path.of_str path)
  | STEM => Path.stem (Path.of_str path)
  end.

(** What [_rename] returns or raises; the world it runs in only receives
    the log entry (lemma [_rename_run]). *)
Definition _rename_result (regex : Pattern) (path replace_pattern : string)
    (target : RenameTarget) : exn + string :=
  (_rename regex path replace_pattern target (mkWorld
     (mkModel [] "" "" NAME None None false false EMPTY) ∅ [])).2.

(** What the list comprehension of [recompute] returns or raises *)
Fixpoint rename_all (regex : Pattern) (replace_pattern : string)
    (target : RenameTarget) (paths : list string) : exn + list string :=
  match paths with
  | [] => inr []
  | path :: paths' =>
      match _rename_result regex path replace_pattern target with
      | inl e => inl e
      | inr renamed =>
          match rename_all regex replace_pattern target paths' with
          | inl e => inl e
          | inr l => inr (renamed :: l)
          end
      end
  end.

(** The calls to [regex.sub] that the list comprehension makes: one for
    each path up to the first that raises *)
Fixpoint rename_calls (regex : Pattern) (replace_pattern : string)
    (target : RenameTarget) (paths : list string) : list re_call :=
  match paths with
  | [] => []
  | path :: paths' =>
      sub_call replace_pattern (subject target path)
      :: match _rename_result regex path replace_pattern target with
         | inl _ => []
         | inr _ => rename_calls regex replace_pattern target paths'
         end
  end.

(** [Path(path).exists()], CPython 3.11: [os.stat(str(path))] is tried. The
    [ValueError] of a path with a null character gives [False], and so do
    the [OSError]s of a missing file, a missing directory and too many
    links; any other [OSError] is raised again. *)
Definition path_exists (files : gmap string node) (path : string) : exn + bool :=
  let p := Path.str (Path.of_str path) in
  if Str.has_nul p then inr false
  else if stat_raises files p then inl OSError
  else inr (stat_follows files MAXSYMLINKS (entry p)).

(** One round of the loop of [_detect_renamed_paths_mistakes], at index
    [i]; [buckets] is the [defaultdict(list)]. [Path.exists] is called only
    where the renamed path is not the picked path, and what it raises ends
    the loop. *)
Definition detect_step (files : gmap string node) (i : nat)
    (picked_path renamed_path : string)
    (mistakes : list Mistake) (buckets : gmap string (list nat))
    : exn + (list Mistake * gmap string (list nat)) :=
  let mistakes :=
    match buckets !! renamed_path with
    | Some bucket =>
        let mistakes :=
          match bucket with
          | [first] => mistakes ++ [DuplicateMistake first]
          | _ => mistakes
          end in
        mistakes ++ [DuplicateMistake i]
    | None => mistakes
    end in
  let buckets :=
    <[renamed_path := default [] (buckets !! renamed_path) ++ [i]]> buckets in
  let mistakes :=
    if validate_filepath renamed_path then mistakes
    else mistakes ++ [InvalidDestinationMistake i] in
  if bool_decide (renamed_path ≠ picked_path) then
    match path_exists files renamed_path with
    | inl e => inl e
    | inr true => inr (mistakes ++ [ExistsMistake i], buckets)
    | inr false => inr (mistakes, buckets)
    end
  else inr (mistakes, buckets).

Fixpoint detect_loop (files : gmap string node) (i : nat)
    (pairs : list (string * string))
    (mistakes : list Mistake) (buckets : gmap string (list nat))
    : exn + list Mistake :=
  match pairs with
  | [] => inr mistakes
  | (picked_path, renamed_path) :: pairs' =>
      match detect_step files i picked_path renamed_path mistakes buckets with
      | inl e => inl e
      | inr (mistakes, buckets) => detect_loop files (S i) pairs' mistakes buckets
      end
  end.

Definition _detect_renamed_paths_mistakes (files : gmap string node)
    (renamed_paths picked_paths : list string) : exn + list Mistake :=
  detect_loop files 0 (zip picked_paths renamed_paths) [] ∅.

(** The truth value of a property that holds a list or [None] *)
Definition truthy {A} (v : option (list A)) : bool :=
  match v with
  | Some (_ :: _) => true
  | _ => false
  end.

(** The [else] branch of [recompute]: the no-op that shows something in the
    renamed paths. *)
Definition noop : M unit :=
  picked ← gets (picked_paths ∘ self);
  modify_self (set_renamed_paths (Some picked)).

(** [recompute]. The local [regex] of the source is [compiled] here and its
    local [mistakes] is [found], since the properties of the model have
    these names. A compiled pattern is always true as a condition. The
    [and] chain at the end is stored in a property of type [bool]: what is
    kept is its truth value. *)
Definition recompute : M unit :=
  picked ← gets (picked_paths ∘ self);
  modify_self (set_app_state (match picked with [] => EMPTY | _ => RENAMING end)) ;;
  (* Parse the regex *)
  regex_text ← gets (regex ∘ self);
  '(compiled, found) ←
    (if bool_decide (regex_text ≠ "") then
       try_except_else (compile regex_text) re_error
         (mret (None, [InvalidRegexMistake]))
         (λ compiled, mret (Some compiled, []))
     else mret (None, []));
  (* Rename the paths if plausible *)
  repl ← gets (replace_pattern ∘ self);
  found ←
    match compiled with
    | Some compiled =>
        if bool_decide (repl ≠ "") then
          try_except_else
            (target ← gets (rename_target ∘ self);
             picked ← gets (picked_paths ∘ self);
             renamed ← comprehension
               (λ path, _rename compiled path repl target) picked;
             modify_self (set_renamed_paths (Some renamed)))
            re_error
            (mret (found ++ [InvalidReplacePatternMistake]))
            (λ _,
               renamed ← gets (renamed_paths ∘ self);
               picked ← gets (picked_paths ∘ self);
               files ← gets fs;
               match renamed with
               | Some renamed =>
                   detected ← lift (_detect_renamed_paths_mistakes files renamed
                                      picked);
                   mret (found ++ detected)
               | None => raise TypeError
               end)
        else noop ;; mret found
    | None => noop ;; mret found
    end;
  modify_self (set_mistakes (Some found)) ;;
  modify_self (λ m,
    set_is_apply_enabled
      (bool_decide (regex m ≠ "")
       && bool_decide (replace_pattern m ≠ "")
       && bool_decide (picked_paths m ≠ [])
       && bool_decide (Some (picked_paths m) ≠ renamed_paths m)
       && negb (truthy (mistakes m)))
      m).

Definition _normalize_utf8 (s : string) : string := normalize_NFC s.

(** The setters of the inbound properties *)
Definition picked_paths_setter (value : list string) : M unit :=
  modify_self (set_picked_paths (_normalize_utf8 <$> value)) ;; recompute.
Definition regex_setter (value : string) : M unit :=
  modify_self (set_regex (_normalize_utf8 value)) ;; recompute.
Definition replace_pattern_setter (value : string) : M unit :=
  modify_self (set_replace_pattern (_normalize_utf8 value)) ;; recompute.
Definition rename_target_setter (value : RenameTarget) : M unit :=
  modify_self (set_rename_target value) ;; recompute.

(** [os.rename(src, dst)]: a path with a null character is a [ValueError].
    Otherwise what the entry of [src] holds, a file or a symbolic link
    itself, moves to the entry of [dst] and replaces what was there; a
    missing source is an [OSError]. *)
Definition os_rename (src dst : string) : M unit := λ w,
  if Str.has_nul src || Str.has_nul dst then (w, inl ValueError)
  else
    match fs w !! entry src with
    | Some file =>
        if os_refuses (fs w) src dst then (w, inl OSError)
        else (mkWorld (self w)
                      (<[entry dst := file]> (delete (entry src) (fs w)))
                      (re_log w),
              inr tt)
    | None => (w, inl OSError)
    end.

(** [Path(p).rename(target)] *)
Definition Path_rename (p : PurePath) (target : string) : M unit :=
  os_rename (Path.str p) target.

(** The generator of both loops: the pairs of [zip] that differ. *)
Definition differing (picked renamed : list string) : list (string * string) :=
  filter (λ pr, pr.1 ≠ pr.2) (zip picked renamed).

Definition apply_renaming : M unit :=
  picked ← gets (picked_paths ∘ self);
  renamed ← gets (renamed_paths ∘ self);
  match renamed with
  | None => raise TypeError
  | Some renamed =>
      for_ (differing picked renamed)
        (λ '(picked, renamed), Path_rename (Path.of_str picked) renamed) ;;
      modify_self (set_app_state RENAMED) ;;
      modify_self (set_is_undo_enabled true)
  end.

Definition undo_renaming : M unit :=
  picked ← gets (picked_paths ∘ self);
  renamed ← gets (renamed_paths ∘ self);
  match renamed with
  | None => raise TypeError
  | Some renamed =>
      for_ (differing picked renamed)
        (λ '(picked, renamed), Path_rename (Path.of_str renamed) picked) ;;
      modify_self (set_app_state RENAMING) ;;
      modify_self (set_is_undo_enabled false)
  end.

(** ** Views of the methods, for the statements below *)

(** The value that [recompute] gives to [is_apply_enabled] *)
Definition can_apply (m : MainModel) : bool :=
  bool_decide (regex m ≠ "")
  && bool_decide (replace_pattern m ≠ "")
  && bool_decide (picked_paths m ≠ [])
  && bool_decide (Some (picked_paths m) ≠ renamed_paths m)
  && negb (truthy (mistakes m)).

(** The three ways in which [recompute] returns *)
Inductive recomputed (w w' : World) : Prop :=
  | recomputed_noop found :
      renamed_paths (self w') = Some (picked_paths (self w)) →
      mistakes (self w') = Some found →
      (regex (self w) = "" ∧ found = [])
      ∨ (regex (self w) ≠ "" ∧ re_compile (regex (self w)) = inl re_error
         ∧ found = [InvalidRegexMistake])
      ∨ (regex (self w) ≠ "" ∧ replace_pattern (self w) = "" ∧ found = []
         ∧ ∃ compiled, re_compile (regex (self w)) = inr compiled) →
      recomputed w w'
  | recomputed_renamed compiled renamed found :
      regex (self w) ≠ "" →
      re_compile (regex (self w)) = inr compiled →
      replace_pattern (self w) ≠ "" →
      rename_all compiled (replace_pattern (self w)) (rename_target (self w))
        (picked_paths (self w)) = inr renamed →
      _detect_renamed_paths_mistakes (fs w) renamed (picked_paths (self w))
      = inr found →
      renamed_paths (self w') = Some renamed →
      mistakes (self w') = Some found →
      recomputed w w'
  | recomputed_invalid_replacement compiled :
      regex (self w) ≠ "" →
      re_compile (regex (self w)) = inr compiled →
      replace_pattern (self w) ≠ "" →
      rename_all compiled (replace_pattern (self w)) (rename_target (self w))
        (picked_paths (self w)) = inl re_error →
      renamed_paths (self w') = renamed_paths (self w) →
      mistakes (self w') = Some [InvalidReplacePatternMistake] →
      recomputed w w'.

(** The entry that [recompute] shows for a picked path when the
    substitution is made: the renamed path, or the path itself when
    [_rename] raises (an entry that is then never published). *)
Definition preview (regex_text repl : string) (target : RenameTarget) (path : string)
    : string :=
  match re_compile regex_text with
  | inr compiled =>
      if bool_decide (regex_text ≠ "") && bool_decide (repl ≠ "") then
        match _rename_result compiled path repl target with
        | inr renamed => renamed
        | inl _ => path
        end
      else path
  | inl _ => path
  end.

(** [Path(path).exists()] returns [True] *)
Definition exists_seen (files : gmap string node) (path : string) : bool :=
  match path_exists files path with
  | inr true => true
  | _ => false
  end.

(** What one round adds to the mistakes, when it does not raise *)
Definition emitted (files : gmap string node) (i : nat) (picked_path renamed_path : string)
    (buckets : gmap string (list nat)) : list Mistake :=
  match buckets !! renamed_path with
  | Some [first] => [DuplicateMistake first; DuplicateMistake i]
  | Some _ => [DuplicateMistake i]
  | None => []
  end
  ++ (if validate_filepath renamed_path then [] else [InvalidDestinationMistake i])
  ++ (if bool_decide (renamed_path ≠ picked_path) && exists_seen files renamed_path
      then [ExistsMistake i] else []).

(** What the rounds from index [i] on add to the mistakes, when none of
    them raises *)
Fixpoint detected_loop (files : gmap string node) (i : nat)
    (pairs : list (string * string)) (buckets : gmap string (list nat))
    : list Mistake :=
  match pairs with
  | [] => []
  | (picked_path, renamed_path) :: pairs' =>
      emitted files i picked_path renamed_path buckets
      ++ detected_loop files (S i) pairs'
           (<[renamed_path := default [] (buckets !! renamed_path) ++ [i]]> buckets)
  end.

(** [Path.exists] raises on none of the renamed paths that the loop calls
    it on, those that are not the picked path of their pair. *)
Definition exists_answers (files : gmap string node) (pairs : list (string * string))
    : Prop :=
  Forall (λ pair, pair.2 ≠ pair.1 → ∃ b, path_exists files pair.2 = inr b) pairs.

(** The mistakes that [_detect_renamed_paths_mistakes] returns, when it
    returns (lemma [detect_returns]) *)
Definition detected (files : gmap string node) (renamed_paths picked_paths : list string)
    : list Mistake :=
  detected_loop files 0 (zip picked_paths renamed_paths) ∅.

(** A symbolic link at the entry of [path] that [Path.exists] does not
    follow to a file: it leads nowhere, or through too many links. *)
Definition dangling (files : gmap string node) (path : string) : Prop :=
  ∃ target,
    files !! entry path = Some (Symlink target)
    ∧ path_exists files path ≠ inr true.

(** The entries that the renames of a list of pairs go between *)
Definition entries (l : list (string * string)) : list (string * string) :=
  (λ pr, (entry pr.1, entry pr.2)) <$> l.

End MainModel.

(** ** Duplicate detection, following the words of the spec

    "When a renamed path is seen for the second time, emit a Duplicate
    mistake for both the first index that produced this value and the
    current index (only the first repeat triggers the mistake for the
    original index; every later repeat triggers its own)." *)

Definition is_duplicate (m : Mistake) : bool :=
  match m with DuplicateMistake _ => true | _ => false end.

(** The indices below [i] at which [value] was seen, in increasing order *)
Definition earlier (renamed : list string) (i : nat) (value : string) : list nat :=
  filter (λ j, renamed !! j = Some value) (seq 0 i).

(** The Duplicate mistakes due when index [i] is reached *)
Definition duplicates_at (renamed : list string) (i : nat) : list Mistake :=
  match renamed !! i with
  | None => []
  | Some value =>
      match earlier renamed i value with
      | [] => []
      | [first] => [DuplicateMistake first; DuplicateMistake i]
      | _ => [DuplicateMistake i]
      end
  end.

Definition duplicates_spec (renamed : list string) : list Mistake :=
  flat_map (duplicates_at renamed) (seq 0 (length renamed)).

(** The buckets after the paths of [done] were seen *)
Definition seen (done : list string) (buckets : gmap string (list nat)) : Prop :=
  ∀ value,
    buckets !! value
    = match earlier done (length done) value with [] => None | l => Some l end.

(** ** Renames on the entries of a file system *)

(** A rename on the entries: [src] must be there, and its file goes to
    [dst]. *)
Definition move (files : gmap string node) (src dst : string)
    : option (gmap string node) :=
  match files !! src with
  | Some file => Some (<[dst := file]> (delete src files))
  | None => None
  end.

Fixpoint moves (files : gmap string node) (l : list (string * string))
    : option (gmap string node) :=
  match l with
  | [] => Some files
  | (src, dst) :: l' =>
      match move files src dst with
      | Some files' => moves files' l'
      | None => None
      end
  end.

Definition swap (p : string * string) : string * string := (p.2, p.1).

(** ** One host: literal patterns on a POSIX file system

    [LiteralRe] is CPython's [re] (3.11) on the patterns that contain none
    of the parser's special characters: such a pattern matches its own text
    and has no group. The replacement template is parsed as
    [parse_template] does for a pattern without groups, on templates of
    ASCII characters. A pattern that is literal text and then a repetition
    [{n}] with [n] not below [MAXREPEAT] raises what [re] raises for it. A
    pattern outside these two fragments is reported as an error: that is
    what [re] does for ["("], the one such pattern used below; the instance
    is not meant for the others. *)

Module LiteralRe.

Definition SPECIAL_CHARS : string := ".\[{()*+?^$|".

Fixpoint is_literal (pattern : string) : bool :=
  match pattern with
  | EmptyString => true
  | String c rest => negb (Str.has_char c SPECIAL_CHARS) && is_literal rest
  end.

Definition char_in (lo hi : nat) (c : ascii) : bool :=
  bool_decide (lo ≤ nat_of_ascii c) && bool_decide (nat_of_ascii c ≤ hi).
Definition is_digit (c : ascii) : bool := char_in 48 57 c.
Definition is_octdigit (c : ascii) : bool := char_in 48 55 c.
Definition is_ascii_letter (c : ascii) : bool := char_in 65 90 c || char_in 97 122 c.
Definition digit_val (c : ascii) : nat := nat_of_ascii c - 48.

(** [MAXREPEAT] of a 64-bit build *)
Definition MAXREPEAT : N := 4294967295%N.

(** [int(digits)] *)
Fixpoint N_of_digits (acc : N) (digits : string) : N :=
  match digits with
  | EmptyString => acc
  | String c rest => N_of_digits (10 * acc + N.of_nat (digit_val c))%N rest
  end.

(** The digits at the head of a string, and what follows them *)
Fixpoint span_digits (s : string) : string * string :=
  match s with
  | EmptyString => (EmptyString, EmptyString)
  | String c rest =>
      if is_digit c then
        let '(digits, rest') := span_digits rest in (String c digits, rest')
      else (EmptyString, s)
  end.

(** What follows the literal characters at the head of a pattern *)
Fixpoint after_literals (pattern : string) : string :=
  match pattern with
  | EmptyString => EmptyString
  | String c rest =>
      if Str.has_char c SPECIAL_CHARS then pattern else after_literals rest
  end.

(** The digits of [n] in a pattern that is literal text and then [{n}] *)
Definition repetition (pattern : string) : option string :=
  match after_literals pattern with
  | String c rest =>
      let '(lo, rest') := span_digits rest in
      if bool_decide (c = "{"%char) && negb (bool_decide (lo = ""))
         && Str.starts_with "}" rest'
      then Some lo else None
  | EmptyString => None
  end.

(** [int] takes 4300 digits at most. *)
Definition INT_MAX_STR_DIGITS : nat := 4300.

(** A pattern of literal characters compiles to itself. Where the parser
    reads a repetition [{n}] after literal text, [int(n)] raises
    [ValueError] on too many digits, and [n >= MAXREPEAT] is an
    [OverflowError]. *)
Definition compile (pattern : string) : exn + string :=
  if is_literal pattern then inr pattern
  else
    match repetition pattern with
    | Some lo =>
        if bool_decide (INT_MAX_STR_DIGITS < String.length lo) then inl ValueError
        else if bool_decide (MAXREPEAT ≤ N_of_digits 0 lo)%N then inl OverflowError
        else inl re_error
    | None => inl re_error
    end.

Fixpoint all_chars (f : ascii → bool) (s : string) : bool :=
  match s with
  | EmptyString => true
  | String c rest => f c && all_chars f rest
  end.

(** [name.isidentifier()] on ASCII text *)
Definition isidentifier (name : string) : bool :=
  match name with
  | EmptyString => false
  | String c rest =>
      (is_ascii_letter c || bool_decide (c = "_"%char))
      && all_chars (λ c, is_ascii_letter c || is_digit c || bool_decide (c = "_"%char)) rest
  end.

(** The white space that [int] strips: tab, line feed, vertical tab, form
    feed, carriage return and space *)
Definition is_space (c : ascii) : bool :=
  char_in 9 13 c || bool_decide (nat_of_ascii c = 32).

Fixpoint lstrip_space (s : string) : string :=
  match s with
  | EmptyString => EmptyString
  | String c rest => if is_space c then lstrip_space rest else s
  end.

Fixpoint rstrip_space (s : string) : string :=
  match s with
  | EmptyString => EmptyString
  | String c rest =>
      let rest' := rstrip_space rest in
      if bool_decide (rest' = "") && is_space c then EmptyString else String c rest'
  end.

(** Zeros, with single underscores between them *)
Fixpoint zeros (s : string) : bool :=
  match s with
  | EmptyString => false
  | String c rest =>
      bool_decide (c = "0"%char)
      && match rest with
         | EmptyString => true
         | String u rest' => if bool_decide (u = "_"%char) then zeros rest' else zeros rest
         end
  end.

(** [int(name) == 0], for a name that is not an identifier: white space
    around, a sign, and zeros. Every other name is an error of [re],
    whether [int] rejects it or the group it names is missing. *)
Definition int_is_zero (name : string) : bool :=
  match rstrip_space (lstrip_space name) with
  | EmptyString => false
  | String c rest =>
      if bool_decide (c = "+"%char) || bool_decide (c = "-"%char) then zeros rest
      else zeros (String c rest)
  end.

(** A token of [Tokenizer]: a character, or a backslash and the character
    after it *)
Inductive token := Char (c : ascii) | Esc (c : ascii).

Global Instance token_eq_dec : EqDecision token.
Proof. solve_decision. Defined.

(** The tokens of a template, and whether a lone backslash ends it;
    [pending] tells that a backslash was just passed. *)
Fixpoint tokens_from (pending : bool) (s : string) : list token * bool :=
  match s with
  | EmptyString => ([], pending)
  | String c rest =>
      if pending then
        let '(l, bad) := tokens_from false rest in (Esc c :: l, bad)
      else if bool_decide (c = "\"%char) then tokens_from true rest
      else let '(l, bad) := tokens_from false rest in (Char c :: l, bad)
  end.

(** [Tokenizer.get]: the tokenizer reads one token ahead, so that taking a
    token raises when what follows it is the lone backslash. [l] holds the
    tokens from [next] on. *)
Definition get (bad : bool) (l : list token) : exn + (option token * list token) :=
  match l with
  | [] => inr (None, [])
  | t :: l' =>
      if bad && bool_decide (l' = []) then inl re_error else inr (Some t, l')
  end.

(** The text of a token *)
Definition token_text (t : token) : string :=
  match t with
  | Char c => String c EmptyString
  | Esc c => String "\"%char (String c EmptyString)
  end.

(** [Tokenizer.getuntil(">")]: the name and the tokens after the [">"] *)
Fixpoint getuntil (bad : bool) (l : list token) (result : string)
    : exn + (string * list token) :=
  match l with
  | [] => inl re_error
  | t :: l' =>
      if bad && bool_decide (l' = []) then inl re_error
      else
        if bool_decide (t = Char ">"%char) then
          if bool_decide (result = "") then inl re_error else inr (result, l')
        else getuntil bad l' (result +:+ token_text t)
  end.

(** The table [ESCAPES] *)
Definition escape (c : ascii) : option ascii :=
  if bool_decide (c = "a"%char) then Some (ascii_of_nat 7)
  else if bool_decide (c = "b"%char) then Some (ascii_of_nat 8)
  else if bool_decide (c = "f"%char) then Some (ascii_of_nat 12)
  else if bool_decide (c = "n"%char) then Some (ascii_of_nat 10)
  else if bool_decide (c = "r"%char) then Some (ascii_of_nat 13)
  else if bool_decide (c = "t"%char) then Some (ascii_of_nat 9)
  else if bool_decide (c = "v"%char) then Some (ascii_of_nat 11)
  else if bool_decide (c = "\"%char) then Some "\"%char
  else None.

(** A piece of a parsed template: literal text or the whole match *)
Inductive piece := Lit (s : string) | Group0.

(** [chr(n)] for [n < 256], in UTF-8 *)
Definition chr (n : nat) : string :=
  if bool_decide (n < 128) then String (ascii_of_nat n) EmptyString
  else String (ascii_of_nat (192 + n / 64))
         (String (ascii_of_nat (128 + n mod 64)) EmptyString).

Definition cons_piece (x : piece) (r : exn + list piece) : exn + list piece :=
  match r with
  | inl e => inl e
  | inr l => inr (x :: l)
  end.

(** The loop of [parse_template] for a pattern whose [groups] is 0 and
    whose [groupindex] is empty: an identifier names no group
    ([IndexError]), and the only group there is has the number 0. *)
Fixpoint parse_tokens (fuel : nat) (bad : bool) (l : list token) : exn + list piece :=
  match fuel with
  | 0 => inr []
  | S fuel =>
      match get bad l with
      | inl e => inl e
      | inr (None, _) => inr []
      | inr (Some (Char c), l) =>
          cons_piece (Lit (String c EmptyString)) (parse_tokens fuel bad l)
      | inr (Some (Esc c), l) =>
          if bool_decide (c = "g"%char) then
            if bool_decide (head l = Some (Char "<"%char)) then
              match get bad l with
              | inl e => inl e
              | inr (_, l) =>
                  match getuntil bad l "" with
                  | inl e => inl e
                  | inr (name, l) =>
                      if isidentifier name then inl IndexError
                      else if int_is_zero name
                      then cons_piece Group0 (parse_tokens fuel bad l)
                      else inl re_error
                  end
              end
            else inl re_error
          else if bool_decide (c = "0"%char) then
            match l with
            | Char d1 :: l1 =>
                if is_octdigit d1 then
                  match get bad l with
                  | inl e => inl e
                  | inr _ =>
                      match l1 with
                      | Char d2 :: l2 =>
                          if is_octdigit d2 then
                            match get bad l1 with
                            | inl e => inl e
                            | inr _ =>
                                cons_piece
                                  (Lit (chr ((8 * digit_val d1 + digit_val d2) mod 256)))
                                  (parse_tokens fuel bad l2)
                            end
                          else
                            cons_piece (Lit (chr (digit_val d1)))
                              (parse_tokens fuel bad l1)
                      | _ =>
                          cons_piece (Lit (chr (digit_val d1))) (parse_tokens fuel bad l1)
                      end
                  end
                else cons_piece (Lit (chr 0)) (parse_tokens fuel bad l)
            | _ => cons_piece (Lit (chr 0)) (parse_tokens fuel bad l)
            end
          else if is_digit c then
            match l with
            | Char d1 :: Char d2 :: l2 =>
                if is_octdigit c && is_octdigit d1 && is_octdigit d2 then
                  match get bad (Char d2 :: l2) with
                  | inl e => inl e
                  | inr _ =>
                      let v := 64 * digit_val c + 8 * digit_val d1 + digit_val d2 in
                      if bool_decide (255 < v) then inl re_error
                      else cons_piece (Lit (chr v)) (parse_tokens fuel bad l2)
                  end
                else inl re_error
            | _ => inl re_error
            end
          else
            match escape c with
            | Some x => cons_piece (Lit (String x EmptyString)) (parse_tokens fuel bad l)
            | None =>
                if is_ascii_letter c then inl re_error
                else cons_piece (Lit (token_text (Esc c))) (parse_tokens fuel bad l)
            end
      end
  end.

(** [parse_template]: the tokenizer reads its first token at once. *)
Definition parse_template (source : string) : exn + list piece :=
  let '(l, bad) := tokens_from false source in
  if bad && bool_decide (l = []) then inl re_error
  else parse_tokens (S (length l)) bad l.

(** [expand_template]: the text that replaces one match *)
Fixpoint expand (pieces : list piece) (matched : string) : string :=
  match pieces with
  | [] => EmptyString
  | Lit s :: rest => s +:+ expand rest matched
  | Group0 :: rest => matched +:+ expand rest matched
  end.

(** The scan of [sub] for a pattern that is not empty: leftmost matches,
    not overlapping. [skip] counts the characters of the current match
    still to pass. *)
Fixpoint scan (pattern replacement : string) (skip : nat) (subject : string) : string :=
  match subject with
  | EmptyString => EmptyString
  | String c rest =>
      match skip with
      | S skip' => scan pattern replacement skip' rest
      | 0 =>
          if Str.starts_with pattern subject
          then replacement +:+ scan pattern replacement (String.length pattern - 1) rest
          else String c (scan pattern replacement 0 rest)
      end
  end.

(** The empty pattern matches before every character and at the end. *)
Fixpoint scan_empty (replacement subject : string) : string :=
  match subject with
  | EmptyString => replacement
  | String c rest => replacement +:+ String c (scan_empty replacement rest)
  end.

(** A template without a backslash is taken as it is; another one is
    parsed, whether the pattern matches or not. *)
Definition template (pattern repl : string) : exn + string :=
  if Str.has_char "\"%char repl then
    match parse_template repl with
    | inl e => inl e
    | inr pieces => inr (expand pieces pattern)
    end
  else inr repl.

Definition sub (pattern repl subject : string) : exn + string :=
  match template pattern repl with
  | inl e => inl e
  | inr replacement =>
      inr (if bool_decide (pattern = "") then scan_empty replacement subject
           else scan pattern replacement 0 subject)
  end.

End LiteralRe.

(** What [pathvalidate] accepts on Linux, in outline: a path that is not
    empty, is at most 4096 bytes long, holds no unprintable ASCII character
    and does not begin as an absolute path of Windows does, with two
    separators or with a drive. *)
Definition unprintable (c : ascii) : bool :=
  let n := nat_of_ascii c in
  bool_decide (n ≤ 8) || (bool_decide (14 ≤ n) && bool_decide (n ≤ 31))
  || bool_decide (n = 127).

Fixpoint has_unprintable (s : string) : bool :=
  match s with
  | EmptyString => false
  | String c rest => unprintable c || has_unprintable rest
  end.

(** [ntpath.splitdrive(s)[0]] is not empty and [ntpath.isabs(s)] *)
Definition nt_anchored (s : string) : bool :=
  let is_sep c := bool_decide (c = "/"%char) || bool_decide (c = "\"%char) in
  match s with
  | String c1 (String c2 rest) =>
      (is_sep c1 && is_sep c2)
      || (bool_decide (c2 = ":"%char)
          && (is_sep c1
              || match rest with
                 | String c3 _ => is_sep c3
                 | EmptyString => false
                 end))
  | _ => false
  end.

Definition posix_validate_filepath (file_path : string) : bool :=
  negb (bool_decide (file_path = ""))
  && negb (nt_anchored file_path)
  && bool_decide (String.length file_path ≤ 4096)
  && negb (has_unprintable file_path).

(** [ENAMETOOLONG] on Linux: a path of more than 4095 bytes, or a component
    of more than 255, the directories before it being there *)
Definition name_too_long (path : string) : bool :=
  bool_decide (4095 < String.length path)
  || existsb (λ x, bool_decide (255 < String.length x)) (Str.split path).

Definition LiteralHost : Host := {|
  Pattern := string;
  re_compile := LiteralRe.compile;
  Pattern_sub := LiteralRe.sub;
  normalize_NFC := λ s, s;
  validate_filepath := posix_validate_filepath;
  resolve := λ path, path;
  stat_raises := λ _ path, name_too_long path;
  os_refuses := λ _ src dst, name_too_long src || name_too_long dst
|}.

(** On the characters below 128, which is what the examples of this file
    use, NFC changes nothing: [LiteralHost] normalises with the identity. *)

(** A world for [LiteralHost]: a model, files and an empty log. *)
Definition world (m : MainModel) (files : gmap string node) : World :=
  mkWorld m files [].

(** The model as [__init__] leaves it, before any property is set. *)
Definition initial_model : MainModel :=
  mkModel [] "" "" NAME None None false false EMPTY.

(** The world that a method leaves *)
Definition exec {A} (method : M A) (w : World) : World := (method w).1.

(** A session: the properties are set one after the other, each setter
    running [recompute]. *)
Definition session (files : gmap string node) (target : RenameTarget)
    (regex_text repl : string) (picked : list string) : World :=
  exec (@picked_paths_setter LiteralHost picked)
    (exec (@replace_pattern_setter LiteralHost repl)
       (exec (@regex_setter LiteralHost regex_text)
          (exec (@rename_target_setter LiteralHost target)
             (world initial_model files)))).

(** ** The renaming page: the mistakes indexed by entry

    [src/pattern_renamer/main/ui/renaming_page.py], the dict comprehension of
    [RenamingPage.mistakes_setter]. *)

(** Modelled from the spec: [RenameDestinationMistake] is declared in
    [types/mistakes.py], which is not among the sources; the spec names the
    mistakes that carry an index the destination mistakes.
    [culprit_index_of] is [m.culprit_index] for them and [None] for the other
    two kinds, which [isinstance] rejects. *)
Definition culprit_index_of (m : Mistake) : option nat :=
  match m with
  | DuplicateMistake i | ExistsMistake i | InvalidDestinationMistake i => Some i
  | InvalidRegexMistake | InvalidReplacePatternMistake => None
  end.

(** [{m.culprit_index: m for m in mistakes if isinstance(m,
    RenameDestinationMistake)}]: a later mistake replaces an earlier one
    with the same index. *)
Definition indexed_rename_destination_mistakes (mistakes : list Mistake)
    : gmap nat Mistake :=
  foldl (λ d m, match culprit_index_of m with
                | Some i => <[i := m]> d
                | None => d
                end) ∅ mistakes.

(** * Examples of the library models *)

Example parse_abs :
  Path.of_str "/tmp//a/./b.txt" = mkPath "/" ["/"; "tmp"; "a"; "b.txt"].
Proof. reflexivity. Qed.
Example parse_two : Path.of_str "//a" = mkPath "//" ["//"; "a"].
Proof. reflexivity. Qed.
Example parse_three : Path.of_str "///a/" = mkPath "/" ["/"; "a"].
Proof. reflexivity. Qed.
Example str_rel : Path.str (Path.of_str "./") = ".".
Proof. reflexivity. Qed.
Example stem_ex :
  Path.stem (Path.of_str "/tmp/a.tar.gz") = "a.tar"
  ∧ Path.suffix (Path.of_str "/tmp/a.tar.gz") = ".gz"
  ∧ Path.stem (Path.of_str "/tmp/.bashrc") = ".bashrc"
  ∧ Path.stem (Path.of_str "/tmp/a.") = "a.".
Proof. repeat split. Qed.
Example div_ex :
  Path.str (Path.div_str (Path.parent (Path.of_str "/tmp/a")) "b/c") = "/tmp/b/c"
  ∧ Path.str (Path.div_str (Path.parent (Path.of_str "/tmp/a")) "/x") = "/x"
  ∧ Path.str (Path.div_str (Path.parent (Path.of_str "/tmp/a")) "") = "/tmp".
Proof. repeat split. Qed.
Example with_name_ex :
  Path.str <$> Path.with_name (Path.of_str "/tmp/x.txt") "./a" = Some "/tmp/./a"
  ∧ Path.with_name (Path.of_str "/tmp/x.txt") "." = None
  ∧ Path.with_name (Path.of_str "/") "a" = None
  ∧ Path.str <$> Path.with_stem (Path.of_str "/tmp/x.txt") "" = Some "/tmp/.txt".
Proof. repeat split. Qed.

Example literal_sub_ex :
  LiteralRe.sub "a" "b/c" "a" = inr "b/c"
  ∧ LiteralRe.sub "mp/b" "/b" "/tmpmp/b" = inr "/tmp/b"
  ∧ LiteralRe.sub "mp/b" "/b" "/tmp/mp/b" = inr "/tmp//b"
  ∧ LiteralRe.sub "" "X" "abc" = inr "XaXbXcX"
  ∧ LiteralRe.sub "aa" "b" "aaaaa" = inr "bba"
  ∧ LiteralRe.sub "a" "\g<0>x" "a" = inr "ax"
  ∧ LiteralRe.sub "a" "\/" "a" = inr "\/"
  ∧ LiteralRe.sub "a" "\101" "a" = inr "A".
Proof. repeat split. Qed.

Example literal_sub_errors :
  LiteralRe.sub "a" "\" "xyz" = inl re_error
  ∧ LiteralRe.sub "a" "\1" "xyz" = inl re_error
  ∧ LiteralRe.sub "a" "\g<foo>" "xyz" = inl IndexError
  ∧ LiteralRe.sub "a" "\g<1>" "xyz" = inl re_error
  ∧ LiteralRe.sub "a" "\q" "xyz" = inl re_error
  ∧ LiteralRe.sub "a" "\g<0" "xyz" = inl re_error
  ∧ LiteralRe.sub "a" "\777" "xyz" = inl re_error
  ∧ LiteralRe.sub "a" "\18" "xyz" = inl re_error
  ∧ LiteralRe.sub "a" "\08" "xyz" = inr "xyz"
  ∧ LiteralRe.compile "(" = inl re_error.
Proof. repeat split. Qed.

(** The tokenizer of [parse_template] reads one token ahead: the lone
    backslash at the end is an error of [re] before the group name is
    looked up. The name of a group is what [int] takes for a number. *)
Example literal_sub_tokens :
  LiteralRe.sub "a" "\g<foo>\" "xyz" = inl re_error
  ∧ LiteralRe.sub "a" "\g<+0>" "a" = inr "a"
  ∧ LiteralRe.sub "a" "\g< 0_0 >x" "a" = inr "ax"
  ∧ LiteralRe.sub "a" "\g<0__0>" "a" = inl re_error
  ∧ LiteralRe.sub "a" "\377" "a" = inr "ÿ"
  ∧ LiteralRe.sub "a" "\400" "a" = inl re_error.
Proof. repeat split. Qed.

Example literal_compile_ex :
  LiteralRe.compile "a" = inr "a"
  ∧ LiteralRe.compile "a{4294967295}" = inl OverflowError
  ∧ LiteralRe.compile ("a{" +:+ Str.mul "9" 4301 +:+ "}") = inl ValueError.
Proof. vm_compute. done. Qed.

Example validate_filepath_ex :
  posix_validate_filepath "/tmp/b" = true
  ∧ posix_validate_filepath "/tmp//b" = true
  ∧ posix_validate_filepath "" = false
  ∧ posix_validate_filepath "//tmp/b" = false
  ∧ posix_validate_filepath "C:/a" = false
  ∧ posix_validate_filepath ("/tmp/" +:+ String (ascii_of_nat 8) "") = false.
Proof. vm_compute. done. Qed.

Example path_exists_ex :
  let files : gmap string node :=
    {[ "/tmp/a" := File 1; "/tmp/b" := Symlink "a"; "/tmp/c" := Symlink "/tmp/nowhere";
       "/tmp/d" := Symlink "d" ]} in
  @path_exists LiteralHost files "/tmp//a" = inr true
  ∧ @path_exists LiteralHost files "/tmp/b" = inr true
  ∧ @path_exists LiteralHost files "/tmp/c" = inr false
  ∧ @path_exists LiteralHost files "/tmp/d" = inr false
  ∧ @path_exists LiteralHost files "/tmp/e" = inr false
  ∧ @path_exists LiteralHost files ("/tmp/" +:+ String Str.NUL "") = inr false
  ∧ @path_exists LiteralHost files ("/tmp/" +:+ Str.mul "a" 256) = inl OSError.
Proof. vm_compute. done. Qed.

(** Unfolds the monad of a method. *)
Ltac run := unfold mbind, M_bind, mret, M_ret, gets, modify_self, noop,
  try_except_else, compile, sub, log, lift, raise; simpl.

(** * Facts about strings and paths *)

Lemma app_cons c s t : String c s +:+ t = String c (s +:+ t).
Proof. reflexivity. Qed.

Lemma app_empty_l s : "" +:+ s = s.
Proof. reflexivity. Qed.

Lemma split_not_nil s : Str.split s ≠ [].
Proof.
  destruct s as [|c s]; simpl; [done|].
  case_bool_decide; [done|]. by destruct (Str.split s).
Qed.

Lemma split_nosep x : Str.has_sep x = false → Str.split x = [x].
Proof.
  induction x as [|c x IH]; simpl; [done|].
  intros [Hc Hx]%orb_false_iff. rewrite Hc, (IH Hx). done.
Qed.

Lemma split_app_sep x rest :
  Str.has_sep x = false → Str.split (x +:+ String Str.sep rest) = x :: Str.split rest.
Proof.
  induction x as [|c x IH]; intros Hx.
  - rewrite app_empty_l. done.
  - simpl in Hx. apply orb_false_iff in Hx as [Hc Hx].
    rewrite app_cons. simpl. rewrite Hc, (IH Hx). done.
Qed.

Lemma split_all_nosep s : Forall (λ x, Str.has_sep x = false) (Str.split s).
Proof.
  induction s as [|c s IH]; simpl.
  - by constructor.
  - case_bool_decide as Hc.
    + by constructor.
    + destruct (Str.split s) as [|x r]; inversion IH; subst; constructor;
        simpl; rewrite ?bool_decide_eq_false_2 by done; done.
Qed.

Lemma plain_spec x : plain x = true ↔ x ≠ "" ∧ x ≠ "." ∧ Str.has_sep x = false.
Proof.
  unfold plain. rewrite !andb_true_iff, !negb_true_iff, !bool_decide_eq_false.
  tauto.
Qed.

Lemma plain_starts x : plain x = true → Str.starts_sep x = false.
Proof.
  intros (_ & _ & Hs)%plain_spec. destruct x as [|c x]; [done|].
  simpl in *. by apply orb_false_iff in Hs as [-> _].
Qed.

Lemma components_plain rel : Forall (λ x, plain x = true) (Path.components rel).
Proof.
  unfold Path.components. apply Forall_forall. intros x Hx.
  apply list_elem_of_filter in Hx as [[H1 H2] Hin]. apply plain_spec.
  split_and!; [done..|].
  generalize (split_all_nosep rel). rewrite Forall_forall. eauto.
Qed.

Lemma components_join tail :
  Forall (λ x, plain x = true) tail → Path.components (Str.join tail) = tail.
Proof.
  unfold Path.components. induction 1 as [|x r Hx Hr IH]; [done|].
  apply plain_spec in Hx as (Hne & Hdot & Hsep).
  destruct r as [|y r].
  - simpl. rewrite split_nosep by done. rewrite filter_cons_True by done. done.
  - change (Str.join (x :: y :: r)) with (x +:+ String Str.sep (Str.join (y :: r))).
    rewrite split_app_sep by done. rewrite filter_cons_True by done.
    by rewrite IH.
Qed.

Lemma join_starts tail :
  Forall (λ x, plain x = true) tail → Str.starts_sep (Str.join tail) = false.
Proof.
  destruct 1 as [|x r Hx Hr]; [done|].
  pose proof (plain_starts _ Hx) as Hs. apply plain_spec in Hx as (Hne & _).
  destruct x as [|c x]; [done|]. destruct r; simpl in *; done.
Qed.

Lemma join_empty tail :
  Forall (λ x, plain x = true) tail → Str.join tail = "" → tail = [].
Proof.
  destruct 1 as [|x r Hx Hr]; [done|].
  apply plain_spec in Hx as (Hne & _). destruct x; [done|]. by destruct r.
Qed.

Lemma lstrip_id s : Str.starts_sep s = false → Str.lstrip s = s.
Proof. destruct s as [|c s]; simpl; [done|]. by intros ->. Qed.

Lemma of_str_normal s : normal (Path.of_str s).
Proof.
  unfold Path.of_str, Path.parse_parts. simpl.
  case_bool_decide as Hs; simpl.
  { split; [by left|]. by exists []. }
  unfold Path.splitroot. destruct (Str.starts_sep s).
  - case_bool_decide; simpl.
    + split; [by right; right|]. eexists. split; [done|]. apply components_plain.
    + split; [by right; left|]. eexists. split; [done|]. apply components_plain.
  - simpl. split; [by left|]. eexists. split; [done|]. apply components_plain.
Qed.

Lemma str_of_normal root tail :
  (root = "" ∨ root = "/" ∨ root = "//") → Forall (λ x, plain x = true) tail →
  Path.of_str (Path.str (mkPath root (anchor root ++ tail))) = mkPath root (anchor root ++ tail).
Proof.
  intros Hroot Htail. pose proof (join_starts _ Htail) as Hst.
  pose proof (components_join _ Htail) as Hc.
  unfold Path.str, Path._format_parsed_parts. simpl.
  destruct Hroot as [->|[->| ->]]; simpl.
  - case_bool_decide as He.
    + apply join_empty in He as ->; done.
    + unfold Path.of_str, Path.parse_parts. simpl.
      rewrite bool_decide_eq_false_2 by done.
      unfold Path.splitroot. rewrite Hst. simpl. by rewrite Hc.
  - unfold Path.of_str, Path.parse_parts. simpl.
    unfold Path.splitroot. rewrite !app_cons, app_empty_l. simpl.
    rewrite (lstrip_id _ Hst).
    replace (bool_decide (S (String.length (Str.join tail)) - String.length (Str.join tail) = 2)) with false
      by (symmetry; apply bool_decide_eq_false; lia).
    simpl. by rewrite Hc.
  - unfold Path.of_str, Path.parse_parts. simpl.
    unfold Path.splitroot. rewrite !app_cons, app_empty_l. simpl.
    rewrite (lstrip_id _ Hst).
    replace (bool_decide (S (S (String.length (Str.join tail))) - String.length (Str.join tail) = 2)) with true
      by (symmetry; apply bool_decide_eq_true; lia).
    simpl. by rewrite Hc.
Qed.

Lemma of_str_str p : normal p → Path.of_str (Path.str p) = p.
Proof.
  destruct p as [root parts]. intros [Hroot (tail & Hp & Htail)]. simpl in *.
  subst parts. by apply str_of_normal.
Qed.

(** Normalising twice is normalising once. *)
Lemma str_idempotent s :
  Path.str (Path.of_str (Path.str (Path.of_str s))) = Path.str (Path.of_str s).
Proof. by rewrite of_str_str by apply of_str_normal. Qed.

Lemma has_char_app c s t :
  Str.has_char c (s +:+ t) = Str.has_char c s || Str.has_char c t.
Proof.
  induction s as [|a s IH]; [done|]. rewrite app_cons. simpl. rewrite IH.
  by rewrite orb_assoc.
Qed.

Lemma has_char_split c s x :
  x ∈ Str.split s → Str.has_char c x = true → Str.has_char c s = true.
Proof.
  revert x. induction s as [|a s IH]; intros x; simpl.
  - intros ->%list_elem_of_singleton. done.
  - case_bool_decide as Ha.
    + intros [->|Hin]%elem_of_cons; [done|]. intros Hx.
      rewrite (IH _ Hin Hx). by rewrite orb_true_r.
    + destruct (Str.split s) as [|y r] eqn:Hsplit.
      * by destruct (split_not_nil s).
      * intros [->|Hin]%elem_of_cons.
        -- simpl. intros [Hc|Hy]%orb_true_iff; [by rewrite Hc|].
           rewrite (IH y); [by rewrite orb_true_r|by left|done].
        -- intros Hx. rewrite (IH x); [by rewrite orb_true_r|by right|done].
Qed.

Lemma has_char_join c l :
  c ≠ Str.sep → Str.has_char c (Str.join l) = true →
  ∃ x, x ∈ l ∧ Str.has_char c x = true.
Proof.
  intros Hc. induction l as [|x l IH]; [done|].
  destruct l as [|y l].
  - intros Hx. exists x. split; [by left|done].
  - change (Str.join (x :: y :: l)) with (x +:+ String Str.sep (Str.join (y :: l))).
    rewrite has_char_app. simpl. rewrite (bool_decide_eq_false_2 (Str.sep = c)) by done.
    intros [Hx|Hrest]%orb_true_iff.
    + exists x. split; [by left|done].
    + destruct (IH Hrest) as (z & Hin & Hz). exists z. split; [by right|done].
Qed.

Lemma has_char_lstrip c s :
  Str.has_char c (Str.lstrip s) = true → Str.has_char c s = true.
Proof.
  induction s as [|a s IH]; [done|]. simpl. case_bool_decide; [|done].
  intros Hs%IH. rewrite Hs. by rewrite orb_true_r.
Qed.

Lemma has_char_components c rel :
  c ≠ Str.sep → Str.has_char c (Str.join (Path.components rel)) = true →
  Str.has_char c rel = true.
Proof.
  intros Hc (x & Hin & Hx)%has_char_join; [|done].
  unfold Path.components in Hin. apply list_elem_of_filter in Hin as [_ Hin].
  by eapply has_char_split.
Qed.

(** A null character in the printed path was in the path string. *)
Lemma has_nul_str s : Str.has_nul (Path.str (Path.of_str s)) = true → Str.has_nul s = true.
Proof.
  assert (Str.NUL ≠ Str.sep) as Hsep by done.
  assert (∀ root rel,
    (root = "/" ∨ root = "//" ∨ root = "") →
    Str.has_nul (Path.str (mkPath root (anchor root ++ Path.components rel))) = true →
    Str.has_char Str.NUL rel = true) as Hparts.
  { intros root rel Hroot. unfold Str.has_nul, Path.str, Path._format_parsed_parts.
    simpl. case_bool_decide; [done|].
    destruct Hroot as [->|[->| ->]]; simpl;
      rewrite ?app_cons, ?app_empty_l; simpl; by apply has_char_components. }
  unfold Path.of_str, Path.parse_parts. simpl.
  destruct (bool_decide (s = "")); [done|].
  unfold Path.splitroot. destruct (Str.starts_sep s).
  - destruct (bool_decide (_ = 2)); simpl.
    + intros Hrel%(Hparts "//"); [|auto]. by apply has_char_lstrip.
    + intros Hrel%(Hparts "/"); [|auto]. by apply has_char_lstrip.
  - simpl. by intros Hrel%(Hparts ""); [|auto].
Qed.

(** * Facts about [recompute] *)

Section Recompute.
Context `{Host}.

Lemma sub_run regex repl s w :
  sub regex repl s w
  = (mkWorld (self w) (fs w) (re_log w ++ [sub_call repl s]), Pattern_sub regex repl s).
Proof. by run. Qed.

Lemma _rename_run regex path repl target w :
  _rename regex path repl target w
  = (mkWorld (self w) (fs w) (re_log w ++ [sub_call repl (subject target path)]),
     _rename_result regex path repl target).
Proof.
  unfold _rename_result, _rename, _rename_using_full_path, _rename_using_name,
    _rename_using_stem.
  destruct target; simpl; unfold mbind, M_bind; rewrite !sub_run; simpl.
  - done.
  - by destruct (Pattern_sub _ _ _).
  - destruct (Pattern_sub _ _ _); [done|].
    by destruct (Path.with_stem _ _).
Qed.

Lemma comprehension_run regex repl target paths w :
  comprehension (λ path, _rename regex path repl target) paths w
  = (mkWorld (self w) (fs w) (re_log w ++ rename_calls regex repl target paths),
     rename_all regex repl target paths).
Proof.
  revert w. induction paths as [|path paths IH]; intros w; simpl.
  - unfold mret, M_ret. rewrite app_nil_r. by destruct w.
  - unfold mbind, M_bind. rewrite _rename_run.
    destruct (_rename_result _ _ _ _) as [e|renamed]; [done|].
    rewrite IH. simpl. rewrite <- app_assoc. simpl.
    by destruct (rename_all _ _ _ _).
Qed.

Lemma rename_calls_sub regex repl target paths :
  Forall (λ c, is_sub_call c = true) (rename_calls regex repl target paths).
Proof.
  induction paths as [|path paths IH]; simpl; [done|].
  constructor; [done|]. by destruct (_rename_result _ _ _ _).
Qed.


Lemma rename_all_lookup regex repl target paths renamed i path :
  rename_all regex repl target paths = inr renamed →
  paths !! i = Some path →
  ∃ v, _rename_result regex path repl target = inr v ∧ renamed !! i = Some v.
Proof.
  revert renamed i. induction paths as [|p paths IH]; intros renamed i; simpl; [done|].
  destruct (_rename_result _ p _ _) eqn:Hp; [done|].
  destruct (rename_all _ _ _ _) eqn:Hall; [done|]. intros [= <-].
  destruct i as [|i]; simpl.
  - intros [= <-]. eauto.
  - intros Hi. by apply (IH _ _ eq_refl).
Qed.

Lemma rename_all_raises regex repl target before path after e :
  Forall (λ q, ∃ v, _rename_result regex q repl target = inr v) before →
  _rename_result regex path repl target = inl e →
  rename_all regex repl target (before ++ path :: after) = inl e.
Proof.
  intros Hbefore Hpath. induction Hbefore as [|q before [v Hq] _ IH]; simpl.
  - by rewrite Hpath.
  - by rewrite Hq, IH.
Qed.

(** C6. When the regex string is empty, [recompute] returns, the renamed
    paths it publishes are the picked paths, the mistakes are the empty
    list, and [re] was not called. *)
Theorem recompute_empty_regex (w : World) :
  regex (self w) = "" →
  ∃ w', recompute w = (w', inr tt)
    ∧ picked_paths (self w') = picked_paths (self w)
    ∧ renamed_paths (self w') = Some (picked_paths (self w))
    ∧ mistakes (self w') = Some []
    ∧ re_log w' = re_log w.
Proof.
  intros Hregex. unfold recompute. run. rewrite Hregex. simpl.
  eexists. split; [reflexivity|]. simpl. done.
Qed.


(** C10. When the regex string is not empty and compiles, and the
    replacement is empty, [recompute] returns with the picked paths as
    renamed paths, no mistake, and apply disabled; [regex.sub] is not
    called. *)
Theorem recompute_empty_replacement (w : World) (compiled : Pattern) :
  regex (self w) ≠ "" →
  re_compile (regex (self w)) = inr compiled →
  replace_pattern (self w) = "" →
  ∃ w', recompute w = (w', inr tt)
    ∧ renamed_paths (self w') = Some (picked_paths (self w))
    ∧ mistakes (self w') = Some []
    ∧ is_apply_enabled (self w') = false
    ∧ re_log w' = re_log w ++ [compile_call (regex (self w))].
Proof.
  intros Hregex Hcompile Hrepl. unfold recompute. run.
  rewrite (bool_decide_eq_true_2 _ Hregex), Hcompile. simpl.
  rewrite Hrepl. simpl.
  eexists. split; [reflexivity|]. simpl. split_and!; try done.
  rewrite Hrepl. by destruct (bool_decide (regex (self w) ≠ "")).
Qed.

Lemma recompute_returns w w' :
  recompute w = (w', inr tt) →
  picked_paths (self w') = picked_paths (self w)
  ∧ regex (self w') = regex (self w)
  ∧ replace_pattern (self w') = replace_pattern (self w)
  ∧ rename_target (self w') = rename_target (self w)
  ∧ fs w' = fs w
  ∧ is_apply_enabled (self w') = can_apply (self w')
  ∧ recomputed w w'.
Proof.
  unfold recompute. run.
  destruct (bool_decide (regex (self w) ≠ "")) eqn:Hregex.
  - apply bool_decide_eq_true in Hregex.
    destruct (re_compile (regex (self w))) as [e|compiled] eqn:Hcompile.
    + destruct (bool_decide (e = re_error)) eqn:He; simpl; [|done].
      apply bool_decide_eq_true in He as ->.
      intros [= <-]. simpl. split_and!; try done.
      eapply recomputed_noop; simpl; eauto.
    + simpl.
      destruct (bool_decide (replace_pattern (self w) ≠ "")) eqn:Hrepl; simpl.
      * apply bool_decide_eq_true in Hrepl.
        rewrite comprehension_run. simpl.
        destruct (rename_all _ _ _ _) as [e|renamed] eqn:Hall; simpl.
        -- destruct (bool_decide (e = re_error)) eqn:He; simpl; [|done].
           apply bool_decide_eq_true in He as ->.
           intros [= <-]. simpl. split_and!; try done.
           eapply recomputed_invalid_replacement; simpl; eauto.
        -- destruct (_detect_renamed_paths_mistakes _ _ _) as [e|found] eqn:Hdetect;
             simpl; [done|].
           intros [= <-]. simpl. split_and!; try done.
           eapply recomputed_renamed; simpl; eauto.
      * apply bool_decide_eq_false in Hrepl. apply dec_stable in Hrepl.
        intros [= <-]. simpl. split_and!; try done.
        eapply recomputed_noop; simpl; eauto 10.
  - apply bool_decide_eq_false in Hregex. apply dec_stable in Hregex.
    simpl. intros [= <-]. simpl. split_and!; try done.
    eapply recomputed_noop; simpl; eauto.
Qed.



Lemma rename_all_fmap compiled repl target paths renamed :
  rename_all compiled repl target paths = inr renamed →
  renamed
  = (λ path, match _rename_result compiled path repl target with
             | inr renamed => renamed
             | inl _ => path
             end) <$> paths.
Proof.
  revert renamed. induction paths as [|p paths IH]; intros renamed; simpl.
  - by intros [= <-].
  - destruct (_rename_result _ p _ _); [done|].
    destruct (rename_all _ _ _ _); [done|]. intros [= <-]. f_equal. by apply IH.
Qed.

(** C2, amended. Whenever [recompute] returns without the mistake
    [InvalidReplacePatternMistake], the renamed paths it publishes are the
    picked paths mapped, in order, through a function that only the regex,
    the replacement and the target determine: the two lists have the same
    length and entry [i] of one is the image of entry [i] of the other. *)
Theorem renamed_paths_pointwise (regex_text repl : string) (target : RenameTarget) :
  ∃ f : string → string, ∀ w w',
    regex (self w) = regex_text →
    replace_pattern (self w) = repl →
    rename_target (self w) = target →
    recompute w = (w', inr tt) →
    mistakes (self w') ≠ Some [InvalidReplacePatternMistake] →
    renamed_paths (self w') = Some (f <$> picked_paths (self w'))
    ∧ length (f <$> picked_paths (self w')) = length (picked_paths (self w')).
Proof.
  exists (preview regex_text repl target).
  intros w w' <- <- <- (Hpicked & _ & _ & _ & _ & _ & Hcase)%recompute_returns Hm.
  split; [|by rewrite length_fmap].
  rewrite Hpicked. unfold preview.
  destruct Hcase as [found Hr Hfound Hcase
                    |compiled renamed found Hregex Hcompile Hrepl Hall _ Hr _
                    |compiled _ _ _ _ _ Hm'].
  - rewrite Hr. f_equal. rewrite <- (list_fmap_id (picked_paths (self w))) at 1.
    apply list_fmap_ext. intros _ path _. simpl.
    destruct Hcase as [[-> _]|[(_ & -> & _)|(_ & -> & _ & compiled & ->)]].
    + by destruct (re_compile "").
    + done.
    + by rewrite andb_false_r.
  - rewrite Hr, Hcompile.
    rewrite !bool_decide_eq_true_2 by done. simpl.
    f_equal. by apply rename_all_fmap.
  - done.
Qed.

Lemma _rename_result_raises compiled path repl target e :
  Pattern_sub compiled repl (subject target path) = inl e →
  _rename_result compiled path repl target = inl e.
Proof.
  intros Hsub.
  unfold _rename_result, _rename, _rename_using_full_path, _rename_using_name,
    _rename_using_stem.
  destruct target; simpl in *; run; by rewrite Hsub.
Qed.

(** C3, amended. When the regex compiles, the replacement is not empty and
    [regex.sub] raises [re.error] on a picked path, nothing having been
    raised on the paths before it, [recompute] returns with the single
    mistake [InvalidReplacePatternMistake] and publishes no renamed path at
    all: [renamed_paths] keeps the value it had before the call. *)
Theorem recompute_invalid_replacement (w : World) (compiled : Pattern)
    (before after : list string) (path : string) :
  regex (self w) ≠ "" →
  re_compile (regex (self w)) = inr compiled →
  replace_pattern (self w) ≠ "" →
  picked_paths (self w) = before ++ path :: after →
  Forall (λ q, ∃ v,
    _rename_result compiled q (replace_pattern (self w)) (rename_target (self w)) = inr v)
    before →
  Pattern_sub compiled (replace_pattern (self w))
    (subject (rename_target (self w)) path) = inl re_error →
  ∃ w', recompute w = (w', inr tt)
    ∧ mistakes (self w') = Some [InvalidReplacePatternMistake]
    ∧ renamed_paths (self w') = renamed_paths (self w).
Proof.
  intros Hregex Hcompile Hrepl Hpicked Hbefore Hsub.
  apply _rename_result_raises in Hsub.
  pose proof (rename_all_raises _ _ _ _ _ after _ Hbefore Hsub) as Hall.
  rewrite <- Hpicked in Hall.
  unfold recompute. run.
  rewrite (bool_decide_eq_true_2 _ Hregex), Hcompile. simpl.
  rewrite (bool_decide_eq_true_2 _ Hrepl). simpl.
  rewrite comprehension_run, Hall. simpl.
  eexists. split; [reflexivity|]. done.
Qed.

End Recompute.

(** * Facts about [_detect_renamed_paths_mistakes] *)

Section Detect.
Context `{Host}.

Lemma filter_ext_in {A} (P Q : A → Prop) `{∀ x, Decision (P x), ∀ x, Decision (Q x)}
    (l : list A) :
  (∀ x, x ∈ l → (P x ↔ Q x)) → filter P l = filter Q l.
Proof.
  induction l as [|x l IH]; intros Hext; [done|].
  rewrite !filter_cons.
  rewrite IH by (intros y Hy; apply Hext; by right).
  destruct (decide (P x)) as [HP|HP], (decide (Q x)) as [HQ|HQ]; try done.
  - apply Hext in HP; [done|by left].
  - apply Hext in HQ; [done|by left].
Qed.

Lemma path_exists_raises files path e : path_exists files path = inl e → e = OSError.
Proof.
  unfold path_exists. destruct (Str.has_nul _); [done|].
  destruct (stat_raises _ _); [by intros [= <-]|done].
Qed.

Lemma exists_seen_true files path :
  exists_seen files path = true ↔ path_exists files path = inr true.
Proof.
  unfold exists_seen. destruct (path_exists files path) as [e|[]]; split; done.
Qed.

Lemma exists_seen_false files path :
  exists_seen files path = false ↔ path_exists files path ≠ inr true.
Proof.
  unfold exists_seen. destruct (path_exists files path) as [e|[]]; split; done.
Qed.

(** One round raises what [Path.exists] raises, and otherwise adds what
    [emitted] says. *)
Lemma detect_step_run files i picked_path renamed_path mistakes buckets :
  detect_step files i picked_path renamed_path mistakes buckets
  = match (if bool_decide (renamed_path ≠ picked_path)
           then path_exists files renamed_path else inr false) with
    | inl e => inl e
    | inr _ =>
        inr (mistakes ++ emitted files i picked_path renamed_path buckets,
             <[renamed_path := default [] (buckets !! renamed_path) ++ [i]]> buckets)
    end.
Proof.
  unfold detect_step, emitted, exists_seen.
  destruct (bool_decide (renamed_path ≠ picked_path)); simpl;
    [destruct (path_exists files renamed_path) as [e|[]]|];
    destruct (buckets !! renamed_path) as [[|first [|??]]|];
    destruct (validate_filepath renamed_path);
    simpl; rewrite <- ?app_assoc, ?app_nil_r; done.
Qed.

Lemma detect_loop_answers files pairs : ∀ i mistakes buckets,
  exists_answers files pairs →
  detect_loop files i pairs mistakes buckets
  = inr (mistakes ++ detected_loop files i pairs buckets).
Proof.
  induction pairs as [|[picked_path renamed_path] pairs IH];
    intros i mistakes buckets Hanswers.
  - simpl. by rewrite app_nil_r.
  - apply Forall_cons in Hanswers as [Hhead Hanswers]. simpl in Hhead.
    cbn [detect_loop detected_loop]. rewrite detect_step_run.
    case_bool_decide as Hne.
    + destruct (Hhead Hne) as [b ->]. rewrite IH by done. by rewrite app_assoc.
    + rewrite IH by done. by rewrite app_assoc.
Qed.

Lemma detect_loop_returns files pairs : ∀ i mistakes buckets found,
  detect_loop files i pairs mistakes buckets = inr found →
  exists_answers files pairs.
Proof.
  induction pairs as [|[picked_path renamed_path] pairs IH];
    intros i mistakes buckets found.
  - intros _. constructor.
  - cbn [detect_loop]. rewrite detect_step_run.
    case_bool_decide as Hne.
    + destruct (path_exists files renamed_path) as [e|b] eqn:Hexists; [done|].
      intros Hrest%IH. constructor; [|done]. intros _. by exists b.
    + intros Hrest%IH. constructor; [|done]. simpl. intros Hne'. by destruct Hne.
Qed.

Lemma detect_loop_raises files pairs : ∀ i mistakes buckets e,
  detect_loop files i pairs mistakes buckets = inl e →
  ∃ j picked_path renamed_path,
    pairs !! j = Some (picked_path, renamed_path)
    ∧ renamed_path ≠ picked_path
    ∧ path_exists files renamed_path = inl e.
Proof.
  induction pairs as [|[picked_path renamed_path] pairs IH];
    intros i mistakes buckets e.
  - done.
  - cbn [detect_loop]. rewrite detect_step_run.
    case_bool_decide as Hne.
    + destruct (path_exists files renamed_path) as [e'|b] eqn:Hexists.
      * intros [= <-]. by exists 0, picked_path, renamed_path.
      * intros (j & p & r & ? & ? & ?)%IH. by exists (S j), p, r.
    + intros (j & p & r & ? & ? & ?)%IH. by exists (S j), p, r.
Qed.

(** [_detect_renamed_paths_mistakes] returns exactly when [Path.exists]
    raises on none of the paths it is called on, and it returns
    [detected]. *)
Lemma detect_answers files renamed picked :
  exists_answers files (zip picked renamed) →
  _detect_renamed_paths_mistakes files renamed picked
  = inr (detected files renamed picked).
Proof. intros Hanswers. by apply (detect_loop_answers files _ 0 []). Qed.

Lemma detect_returns files renamed picked found :
  _detect_renamed_paths_mistakes files renamed picked = inr found →
  found = detected files renamed picked
  ∧ exists_answers files (zip picked renamed).
Proof.
  intros Hrun. pose proof (detect_loop_returns _ _ _ _ _ _ Hrun) as Hanswers.
  split; [|done]. rewrite (detect_answers _ _ _ Hanswers) in Hrun. by injection Hrun.
Qed.

Lemma detect_raises files renamed picked e :
  _detect_renamed_paths_mistakes files renamed picked = inl e →
  e = OSError
  ∧ ∃ i picked_path renamed_path,
      picked !! i = Some picked_path
      ∧ renamed !! i = Some renamed_path
      ∧ renamed_path ≠ picked_path
      ∧ path_exists files renamed_path = inl OSError.
Proof.
  intros (j & p & r & Hj & Hne & Hexists)%detect_loop_raises.
  apply lookup_zip_with_Some in Hj as (? & ? & [= <- <-] & ? & ?).
  pose proof (path_exists_raises _ _ _ Hexists) as ->.
  split; [done|]. by exists j, p, r.
Qed.

Lemma exists_emitted files k i picked_path renamed_path buckets :
  ExistsMistake k ∈ emitted files i picked_path renamed_path buckets
  ↔ k = i ∧ renamed_path ≠ picked_path ∧ exists_seen files renamed_path = true.
Proof.
  unfold emitted. rewrite !elem_of_app.
  split.
  - intros [Hin|[Hin|Hin]].
    + destruct (buckets !! renamed_path) as [[|? [|??]]|];
        repeat (apply elem_of_cons in Hin as [?|Hin]; [done|]);
        by apply elem_of_nil in Hin.
    + destruct (validate_filepath renamed_path);
        [by apply elem_of_nil in Hin|].
      apply elem_of_cons in Hin as [?|Hin]; [done|]. by apply elem_of_nil in Hin.
    + destruct (bool_decide (renamed_path ≠ picked_path) && exists_seen files renamed_path)
        eqn:Hcond; [|by apply elem_of_nil in Hin].
      apply andb_true_iff in Hcond as [Hne%bool_decide_eq_true Hex].
      apply elem_of_cons in Hin as [[= ->]|Hin]; [done|]. by apply elem_of_nil in Hin.
  - intros (-> & Hne & Hex). right. right.
    rewrite (bool_decide_eq_true_2 _ Hne), Hex. simpl. by left.
Qed.

Lemma exists_detected_loop files k pairs : ∀ i buckets,
  ExistsMistake k ∈ detected_loop files i pairs buckets
  ↔ ∃ j picked_path renamed_path,
      pairs !! j = Some (picked_path, renamed_path) ∧ k = i + j
      ∧ renamed_path ≠ picked_path ∧ exists_seen files renamed_path = true.
Proof.
  induction pairs as [|[picked_path renamed_path] pairs IH]; intros i buckets.
  - simpl. split; [by intros ?%elem_of_nil|]. by intros (? & ? & ? & ? & _).
  - cbn [detected_loop]. rewrite elem_of_app, exists_emitted, IH. split.
    + intros [(-> & ? & ?)|(j & p & r & ? & -> & ? & ?)].
      * exists 0, picked_path, renamed_path. split_and!; first [done|lia].
      * exists (S j), p, r. split_and!; first [done|lia].
    + intros ([|j] & p & r & Hj & -> & ? & ?); simpl in Hj.
      * injection Hj as <- <-. left. split_and!; first [done|lia].
      * right. exists j, p, r. split_and!; first [done|lia].
Qed.

Lemma exists_detected files renamed picked i :
  ExistsMistake i ∈ detected files renamed picked
  ↔ ∃ picked_path renamed_path,
      picked !! i = Some picked_path
      ∧ renamed !! i = Some renamed_path
      ∧ renamed_path ≠ picked_path
      ∧ path_exists files renamed_path = inr true.
Proof.
  unfold detected. rewrite exists_detected_loop. split.
  - intros (j & p & r & Hj & -> & ? & ?%exists_seen_true).
    apply lookup_zip_with_Some in Hj as (? & ? & [= <- <-] & ? & ?).
    by exists p, r.
  - intros (p & r & ? & ? & ? & ?%exists_seen_true). exists i, p, r. split_and!; try done.
    apply lookup_zip_with_Some. by exists p, r.
Qed.

(** C8, amended. When [Path.exists] raises on none of the renamed paths it
    is called on, [_detect_renamed_paths_mistakes] returns, and it reports
    [ExistsMistake i] exactly when the renamed path at index [i] differs
    from the picked path at index [i] and [Path.exists] returns [True] for
    it: [os.stat] finds a file there, through the symbolic links if there
    are any. An entry whose renamed path is its picked path gets no
    [ExistsMistake], whether the path exists or not. *)
Theorem exists_mistake_iff (files : gmap string node) (renamed picked : list string) :
  exists_answers files (zip picked renamed) →
  ∃ found,
    _detect_renamed_paths_mistakes files renamed picked = inr found
    ∧ ∀ i,
        ExistsMistake i ∈ found
        ↔ ∃ picked_path renamed_path,
            picked !! i = Some picked_path
            ∧ renamed !! i = Some renamed_path
            ∧ renamed_path ≠ picked_path
            ∧ path_exists files renamed_path = inr true.
Proof.
  intros Hanswers. exists (detected files renamed picked).
  split; [by apply detect_answers|]. intros i. apply exists_detected.
Qed.

Lemma earlier_app done rest i value :
  i ≤ length done → earlier (done ++ rest) i value = earlier done i value.
Proof.
  intros Hi. unfold earlier. apply filter_ext_in. intros j Hj%elem_of_seq.
  rewrite lookup_app_l by lia. done.
Qed.

Lemma earlier_snoc done r value :
  earlier (done ++ [r]) (S (length done)) value
  = earlier done (length done) value ++ (if decide (r = value) then [length done] else []).
Proof.
  unfold earlier at 1. rewrite seq_S, filter_app. f_equal.
  - apply (earlier_app done [r] (length done) value). lia.
  - simpl. rewrite filter_cons, filter_nil.
    rewrite list_lookup_middle by done.
    destruct (decide (r = value)) as [->|Hne].
    + by rewrite decide_True.
    + rewrite decide_False; [done|]. by intros [= ?].
Qed.

Lemma seen_empty : seen [] ∅.
Proof. intros value. by rewrite lookup_empty. Qed.

Lemma seen_step done buckets r :
  seen done buckets →
  seen (done ++ [r]) (<[r := default [] (buckets !! r) ++ [length done]]> buckets).
Proof.
  intros Hseen value. rewrite length_app, Nat.add_1_r, earlier_snoc.
  destruct (decide (r = value)) as [->|Hne].
  - rewrite lookup_insert_eq, Hseen.
    by destruct (earlier done (length done) value).
  - rewrite lookup_insert_ne by done. by rewrite Hseen, app_nil_r.
Qed.

Lemma duplicates_emitted files i picked_path renamed_path buckets :
  filter (λ m, is_duplicate m = true) (emitted files i picked_path renamed_path buckets)
  = match buckets !! renamed_path with
    | Some [first] => [DuplicateMistake first; DuplicateMistake i]
    | Some _ => [DuplicateMistake i]
    | None => []
    end.
Proof.
  unfold emitted. rewrite !filter_app.
  destruct (validate_filepath renamed_path);
    destruct (bool_decide (renamed_path ≠ picked_path) && exists_seen files renamed_path);
    destruct (buckets !! renamed_path) as [[|? [|??]]|]; done.
Qed.

Lemma duplicates_detected_loop files pairs : ∀ done buckets,
  seen done buckets →
  filter (λ m, is_duplicate m = true) (detected_loop files (length done) pairs buckets)
  = flat_map (duplicates_at (done ++ pairs.*2)) (seq (length done) (length pairs)).
Proof.
  induction pairs as [|[picked_path renamed_path] pairs IH]; intros done buckets Hseen.
  - done.
  - cbn [detected_loop]. rewrite filter_app, duplicates_emitted.
    pose proof (IH (done ++ [renamed_path]) _ (seen_step _ _ renamed_path Hseen)) as IH'.
    rewrite length_app, Nat.add_1_r in IH'. rewrite IH'. clear IH'.
    rewrite <- app_assoc. simpl. f_equal.
    unfold duplicates_at. rewrite list_lookup_middle by done.
    rewrite earlier_app by done. rewrite Hseen.
    by destruct (earlier done (length done) renamed_path) as [|? [|??]].
Qed.

Lemma snd_zip_take (picked renamed : list string) :
  (zip picked renamed).*2 = take (length picked) renamed.
Proof.
  revert renamed. induction picked as [|p picked IH]; intros [|r renamed]; simpl;
    try done. f_equal. apply IH.
Qed.

Lemma singleton_of_NoDup (l : list nat) (x : nat) :
  NoDup l → x ∈ l → Forall (λ y, y = x) l → l = [x].
Proof.
  intros Hnodup Hin Hall. destruct l as [|a l]; [by apply elem_of_nil in Hin|].
  apply Forall_cons in Hall as [-> Hall]. f_equal.
  destruct l as [|b l]; [done|].
  apply Forall_cons in Hall as [-> _].
  apply NoDup_cons in Hnodup as [Hnot _]. exfalso. apply Hnot. by left.
Qed.

Lemma elem_of_earlier renamed i value j :
  j ∈ earlier renamed i value ↔ j < i ∧ renamed !! j = Some value.
Proof.
  unfold earlier. rewrite list_elem_of_filter, elem_of_seq. split; intros []; split; (done || lia).
Qed.

(** The index at which a value is seen for the second time *)
Lemma second_occurrence renamed value i : ∀ j,
  i < j → renamed !! i = Some value → renamed !! j = Some value →
  earlier renamed i value = [] →
  ∃ s, renamed !! s = Some value ∧ earlier renamed s value = [i].
Proof.
  intros j. induction (lt_wf j) as [j _ IH]. intros Hij Hi Hj Hfirst.
  destruct (decide (Forall (λ y, y = i) (earlier renamed j value))) as [Hall|Hmore].
  - exists j. split; [done|]. apply singleton_of_NoDup; [|by apply elem_of_earlier|done].
    apply NoDup_filter, NoDup_seq.
  - apply not_Forall_Exists in Hmore; [|apply _].
    apply Exists_exists in Hmore as (x & Hx & Hne). simpl in Hne.
    apply elem_of_earlier in Hx as [Hxj Hxv].
    assert (i < x) as Hix.
    { destruct (decide (x < i)) as [Hlt|]; [|lia].
      assert (x ∈ earlier renamed i value) as Hin by by apply elem_of_earlier.
      rewrite Hfirst in Hin. by apply elem_of_nil in Hin. }
    by apply (IH x).
Qed.

Lemma duplicate_of_repeat renamed value i j :
  i ≠ j → renamed !! i = Some value → renamed !! j = Some value →
  DuplicateMistake i ∈ duplicates_spec renamed.
Proof.
  intros Hne Hi Hj. unfold duplicates_spec.
  destruct (earlier renamed i value) as [|a l] eqn:Hearlier.
  - assert (i < j) as Hij.
    { destruct (decide (j < i)) as [Hlt|]; [|lia].
      assert (j ∈ earlier renamed i value) as Hin by by apply elem_of_earlier.
      rewrite Hearlier in Hin. by apply elem_of_nil in Hin. }
    destruct (second_occurrence renamed value i j) as (s & Hs & Hsi); try done.
    apply list_elem_of_In, in_flat_map. exists s. split.
    + apply in_seq. apply lookup_lt_Some in Hs. lia.
    + unfold duplicates_at. rewrite Hs, Hsi. by left.
  - apply list_elem_of_In, in_flat_map. exists i. split.
    + apply in_seq. apply lookup_lt_Some in Hi. lia.
    + unfold duplicates_at. rewrite Hi, Hearlier.
      destruct l; [right; by left|by left].
Qed.

Lemma duplicates_detected files renamed picked :
  filter (λ m, is_duplicate m = true) (detected files renamed picked)
  = duplicates_spec (take (length picked) renamed).
Proof.
  unfold detected, duplicates_spec.
  rewrite (duplicates_detected_loop files _ [] ∅ seen_empty). simpl.
  rewrite snd_zip_take. f_equal. f_equal.
  rewrite <- snd_zip_take. by rewrite length_fmap.
Qed.

(** C7, amended. When [Path.exists] raises on none of the renamed paths it
    is called on, [_detect_renamed_paths_mistakes] returns, and its
    Duplicate mistakes, in the order in which they are reported, are those
    the spec describes: when index [i] is reached and its renamed path was
    seen before, the first index that produced it gets a
    [DuplicateMistake] if this is the second time the path is seen (and at
    no other time), and [i] gets its own. In particular two entries with
    the same renamed path both get a [DuplicateMistake]. The paths seen
    are those of the pairs that [zip] forms. *)
Theorem duplicate_mistakes (files : gmap string node) (renamed picked : list string) :
  exists_answers files (zip picked renamed) →
  ∃ found,
    _detect_renamed_paths_mistakes files renamed picked = inr found
    ∧ filter (λ m, is_duplicate m = true) found
      = duplicates_spec (take (length picked) renamed)
    ∧ ∀ i j value,
        i ≠ j →
        take (length picked) renamed !! i = Some value →
        take (length picked) renamed !! j = Some value →
        DuplicateMistake i ∈ found ∧ DuplicateMistake j ∈ found.
Proof.
  intros Hanswers. exists (detected files renamed picked).
  split; [by apply detect_answers|].
  pose proof (duplicates_detected files renamed picked) as Heq.
  split; [done|]. intros i j value Hne Hi Hj.
  split.
  - eapply (list_elem_of_filter (λ m, is_duplicate m = true)). rewrite Heq.
    by eapply duplicate_of_repeat.
  - eapply (list_elem_of_filter (λ m, is_duplicate m = true)). rewrite Heq.
    by eapply (duplicate_of_repeat _ _ j i).
Qed.

End Detect.

(** * Facts about [_rename_using_name] *)

Section RenameName.
Context `{Host}.

Lemma parse_plain name : plain name = true → Path.parse_parts [name] = mkPath "" [name].
Proof.
  intros Hplain. pose proof (plain_starts _ Hplain) as Hstart.
  apply plain_spec in Hplain as (Hne & Hdot & Hsep).
  unfold Path.parse_parts. simpl.
  rewrite (bool_decide_eq_false_2 _ Hne).
  unfold Path.splitroot. rewrite Hstart. simpl.
  unfold Path.components. rewrite split_nosep by done.
  by rewrite filter_cons_True.
Qed.

Lemma removelast_snoc {A} (l : list A) (x : A) : removelast (l ++ [x]) = l.
Proof. by rewrite removelast_app, app_nil_r. Qed.

Lemma normal_parent p : normal p → normal (Path.parent p).
Proof.
  intros Hp. unfold Path.parent.
  destruct (bool_decide (length (_parts p) = 1) && bool_decide (_root p ≠ ""))
    eqn:Hcond; [done|].
  destruct p as [root parts]. destruct Hp as [Hroot (tail & Hparts & Htail)].
  simpl in *. subst parts. split; [done|]. simpl.
  destruct tail as [|x tail _] using rev_ind.
  - exists []. split; [|done]. rewrite app_nil_r in *. unfold anchor in *.
    destruct (bool_decide (root ≠ "")); [done|done].
  - exists tail. split.
    + by rewrite app_assoc, removelast_snoc.
    + by apply Forall_app in Htail as [? _].
Qed.

Lemma normal_snoc p name :
  normal p → plain name = true → normal (mkPath (_root p) (_parts p ++ [name])).
Proof.
  intros [Hroot (tail & Hparts & Htail)] Hplain. split; [done|]. simpl.
  exists (tail ++ [name]). split.
  - by rewrite Hparts, app_assoc.
  - apply Forall_app. split; [done|]. by constructor.
Qed.

Lemma div_str_plain p name :
  plain name = true → Path.div_str p name = mkPath (_root p) (_parts p ++ [name]).
Proof.
  intros Hplain. unfold Path.div_str, Path._make_child.
  rewrite (parse_plain _ Hplain). done.
Qed.

Lemma parent_snoc p name :
  normal p → Path.parent (mkPath (_root p) (_parts p ++ [name])) = p.
Proof.
  destruct p as [root parts]. intros [Hroot (tail & Hparts & Htail)]. simpl in *.
  unfold Path.parent. simpl. rewrite removelast_snoc.
  destruct (bool_decide (length (parts ++ [name]) = 1) && bool_decide (root ≠ ""))
    eqn:Hcond; [|done].
  apply andb_true_iff in Hcond as [Hlen%bool_decide_eq_true Hne%bool_decide_eq_true].
  subst parts. unfold anchor in Hlen. rewrite (bool_decide_eq_true_2 _ Hne) in Hlen.
  rewrite length_app in Hlen. simpl in Hlen. lia.
Qed.

Lemma name_snoc p name :
  normal p → Path.name (mkPath (_root p) (_parts p ++ [name])) = name.
Proof.
  destruct p as [root parts]. intros [Hroot (tail & Hparts & Htail)]. simpl in *.
  unfold Path.name. simpl. rewrite last_last.
  rewrite bool_decide_eq_false_2; [done|].
  subst parts. unfold anchor. rewrite !length_app. simpl.
  destruct (bool_decide (root ≠ "")); simpl; lia.
Qed.

(** C9, amended. With the target [NAME], [regex.sub] is called once, on the
    final component of the picked path; and when what it returns is a plain
    name (not empty, without ["/"], and not ["."]), the renamed path has
    the parent of the picked path, and that name as its final
    component. *)
Theorem rename_using_name_keeps_parent (compiled : Pattern) (repl path name : string)
    (w : World) :
  Pattern_sub compiled repl (Path.name (Path.of_str path)) = inr name →
  plain name = true →
  ∃ renamed,
    _rename_using_name compiled repl path w
    = (mkWorld (self w) (fs w)
         (re_log w ++ [sub_call repl (Path.name (Path.of_str path))]),
       inr renamed)
    ∧ Path.parent (Path.of_str renamed) = Path.parent (Path.of_str path)
    ∧ Path.name (Path.of_str renamed) = name.
Proof.
  intros Hsub Hplain.
  pose proof (normal_parent _ (of_str_normal path)) as Hparent.
  exists (Path.str (Path.div_str (Path.parent (Path.of_str path)) name)).
  split.
  - unfold _rename_using_name, mbind, M_bind, sub, log, lift. simpl.
    by rewrite Hsub.
  - rewrite div_str_plain by done.
    rewrite of_str_str by by apply normal_snoc.
    by rewrite parent_snoc, name_snoc.
Qed.

End RenameName.

(** * Facts about [apply_renaming] and [undo_renaming] *)

Section Moves.

Lemma moves_src_present l : ∀ files files' src,
  (∀ s d, s ∈ l.*1 → d ∈ l.*2 → s ≠ d) →
  moves files l = Some files' → src ∈ l.*1 → is_Some (files !! src).
Proof.
  induction l as [|[s0 d0] l IH]; intros files files' src Hdisj Hrun Hin; simpl in *.
  - by apply elem_of_nil in Hin.
  - unfold move in Hrun. destruct (files !! s0) as [file|] eqn:Hs0; [|done].
    apply elem_of_cons in Hin as [->|Hin]; [by rewrite Hs0|].
    assert (src ≠ d0) as Hne by (apply Hdisj; [by right|by left]).
    eapply IH in Hrun; [| |done].
    + rewrite lookup_insert_ne in Hrun by done.
      destruct (decide (s0 = src)) as [->|Hne'].
      * rewrite lookup_delete_eq in Hrun. by destruct Hrun.
      * by rewrite lookup_delete_ne in Hrun.
    + intros s d Hs Hd. apply Hdisj; by right.
Qed.

Lemma moves_NoDup_src l : ∀ files files',
  (∀ s d, s ∈ l.*1 → d ∈ l.*2 → s ≠ d) →
  moves files l = Some files' → NoDup l.*1.
Proof.
  induction l as [|[s0 d0] l IH]; intros files files' Hdisj Hrun; simpl in *.
  - constructor.
  - unfold move in Hrun. destruct (files !! s0) as [file|] eqn:Hs0; [|done].
    assert (∀ s d, s ∈ l.*1 → d ∈ l.*2 → s ≠ d) as Hdisj'
      by (intros s d Hs Hd; apply Hdisj; by right).
    constructor; [|by eapply IH].
    intros Hin. eapply moves_src_present in Hrun; [|done|done].
    assert (s0 ≠ d0) as Hne by (apply Hdisj; by left).
    rewrite lookup_insert_ne, lookup_delete_eq in Hrun by done. by destruct Hrun.
Qed.

Lemma moves_untouched l : ∀ files files' k,
  moves files l = Some files' → k ∉ l.*1 → k ∉ l.*2 → files' !! k = files !! k.
Proof.
  induction l as [|[s0 d0] l IH]; intros files files' k Hrun Hsrc Hdst; simpl in *.
  - by injection Hrun as <-.
  - unfold move in Hrun. destruct (files !! s0) as [file|] eqn:Hs0; [|done].
    apply not_elem_of_cons in Hsrc as [? ?]. apply not_elem_of_cons in Hdst as [? ?].
    rewrite (IH _ _ _ Hrun) by done.
    by rewrite lookup_insert_ne, lookup_delete_ne.
Qed.

(** A move between two entries that the list does not mention commutes
    with the moves of the list. *)
Lemma moves_commute l : ∀ files a b file,
  a ∉ l.*1 → a ∉ l.*2 → b ∉ l.*1 → b ∉ l.*2 →
  moves (<[a := file]> (delete b files)) l
  = (λ files', <[a := file]> (delete b files')) <$> moves files l.
Proof.
  induction l as [|[s0 d0] l IH]; intros files a b file Ha1 Ha2 Hb1 Hb2; simpl in *.
  - done.
  - apply not_elem_of_cons in Ha1 as [? ?]. apply not_elem_of_cons in Ha2 as [? ?].
    apply not_elem_of_cons in Hb1 as [? ?]. apply not_elem_of_cons in Hb2 as [? ?].
    unfold move. rewrite lookup_insert_ne, lookup_delete_ne by done.
    destruct (files !! s0) as [g|]; [|done].
    rewrite <- IH by done. f_equal.
    rewrite delete_insert_ne by done. rewrite (insert_insert_ne _ d0 a) by done.
    rewrite (delete_delete _ s0 b). rewrite (delete_insert_ne _ b d0) by done.
    done.
Qed.

Lemma moves_round_trip l : ∀ files files1 files2,
  NoDup l.*1 → NoDup l.*2 →
  (∀ s, s ∈ l.*1 → is_Some (files !! s)) →
  (∀ d, d ∈ l.*2 → files !! d = None) →
  moves files l = Some files1 →
  moves files1 (swap <$> l) = Some files2 →
  files2 = files.
Proof.
  induction l as [|[s0 d0] l IH];
    intros files files1 files2 Hsrc Hdst Hpresent Habsent Hrun Hback; simpl in *.
  - congruence.
  - apply NoDup_cons in Hsrc as [Hs0 Hsrc]. apply NoDup_cons in Hdst as [Hd0 Hdst].
    unfold move in Hrun. destruct (files !! s0) as [file|] eqn:Hfile; [|done].
    assert (files !! d0 = None) as Hd0none by (apply Habsent; by left).
    assert (s0 ≠ d0) as Hne by (intros ->; congruence).
    assert (d0 ∉ l.*1) as Hd0src.
    { intros Hin. destruct (Hpresent d0) as [? ?]; [by right|congruence]. }
    assert (s0 ∉ l.*2) as Hs0dst.
    { intros Hin. rewrite (Habsent s0) in Hfile; [done|by right]. }
    unfold move in Hback.
    rewrite (moves_untouched _ _ _ d0 Hrun), lookup_insert_eq in Hback by done.
    assert ((swap <$> l).*1 = l.*2) as Hswap1.
    { clear. induction l as [|[??] l IH]; [done|]. rewrite !fmap_cons. by f_equal. }
    assert ((swap <$> l).*2 = l.*1) as Hswap2.
    { clear. induction l as [|[??] l IH]; [done|]. rewrite !fmap_cons. by f_equal. }
    rewrite moves_commute in Hback.
    2-5: change (list_fmap _ _ swap l) with (swap <$> l);
      rewrite ?Hswap1, ?Hswap2; done.
    apply fmap_Some in Hback as (files2' & Hback & ->).
    rewrite (IH (<[d0:=file]> (delete s0 files)) files1 files2' Hsrc Hdst); try done.
    + rewrite delete_insert_eq, (delete_id _ d0) by by rewrite lookup_delete_ne.
      rewrite insert_delete_eq. by apply insert_id.
    + intros s Hs. rewrite lookup_insert_ne, lookup_delete_ne.
      * apply Hpresent. by right.
      * intros ->. done.
      * intros ->. done.
    + intros d Hd. rewrite lookup_insert_ne.
      * rewrite lookup_delete_ne; [apply Habsent; by right|]. intros ->. done.
      * intros ->. done.
Qed.

End Moves.

Section ApplyUndo.
Context `{Host}.

Lemma entry_str path : entry (Path.str (Path.of_str path)) = entry path.
Proof. unfold entry. by rewrite str_idempotent. Qed.

(** The loop of both methods, on the pairs in the order of the renames:
    what it leaves in each of its outcomes. *)
Lemma rename_loop_outcome l : ∀ w w' res,
  for_ l (λ '(src, dst), Path_rename (Path.of_str src) dst) w = (w', res) →
  self w' = self w
  ∧ re_log w' = re_log w
  ∧ (∀ k, (∀ src dst, (src, dst) ∈ l → k ≠ entry src ∧ k ≠ entry dst) →
          fs w' !! k = fs w !! k)
  ∧ match res with
    | inr _ =>
        moves (fs w) (entries l) = Some (fs w')
        ∧ Forall (λ pair, Str.has_nul (Path.str (Path.of_str pair.1))
                          || Str.has_nul pair.2 = false) l
    | inl e =>
        ∃ done src dst rest,
          l = done ++ (src, dst) :: rest
          ∧ moves (fs w) (entries done) = Some (fs w')
          ∧ (e = ValueError
             ∧ Str.has_nul (Path.str (Path.of_str src)) || Str.has_nul dst = true
             ∨ e = OSError
               ∧ Str.has_nul (Path.str (Path.of_str src)) || Str.has_nul dst = false
               ∧ (fs w' !! entry src = None
                  ∨ os_refuses (fs w') (Path.str (Path.of_str src)) dst = true))
    end.
Proof.
  induction l as [|[src dst] l IH]; intros w w' res; simpl.
  - unfold mret, M_ret. intros [= <- <-]. done.
  - unfold mbind, M_bind, Path_rename, os_rename, move. rewrite entry_str.
    destruct (Str.has_nul _ || Str.has_nul dst) eqn:Hnul.
    { intros [= <- <-]. split_and!; try done.
      exists [], src, dst, l. split_and!; [done|done|by left]. }
    destruct (fs w !! entry src) as [file|] eqn:Hsrc.
    + destruct (os_refuses _ _ _) eqn:Hrefuses.
      * intros [= <- <-]. split_and!; try done.
        exists [], src, dst, l. split_and!; [done|done|]. right. auto.
      * intros (Hself & Hlog & Hframe & Hres)%IH. simpl in *.
        split_and!; [done|done| |].
        -- intros k Hk. rewrite Hframe.
           ++ destruct (Hk src dst) as [? ?]; [by left|].
              by rewrite lookup_insert_ne, lookup_delete_ne.
           ++ intros src' dst' Hin. apply Hk. by right.
        -- destruct res as [e|[]].
           ++ destruct Hres as (done & src' & dst' & rest & -> & Hmoves & Hwhy).
              exists ((src, dst) :: done), src', dst', rest.
              split_and!; [done| |done]. simpl. unfold move. by rewrite Hsrc.
           ++ destruct Hres as [Hmoves Hnuls]. split; [done|].
              constructor; [|done]. done.
    + intros [= <- <-]. split_and!; try done.
      exists [], src, dst, l. split_and!; [done|done|]. right. auto.
Qed.

Lemma undo_loop_swap l : ∀ w,
  for_ l (λ '(picked, renamed), Path_rename (Path.of_str renamed) picked) w
  = for_ (swap <$> l) (λ '(src, dst), Path_rename (Path.of_str src) dst) w.
Proof.
  induction l as [|[picked renamed] l IH]; intros w; [done|].
  rewrite fmap_cons. simpl. unfold mbind, M_bind.
  destruct (Path_rename _ _ w) as [w1 [e|[]]]; [done|]. apply IH.
Qed.

Lemma entries_swap l : entries (swap <$> l) = swap <$> entries l.
Proof.
  unfold entries. rewrite <- !list_fmap_compose. apply list_fmap_ext. by intros ? [??].
Qed.

Lemma apply_renaming_run w w' renamed :
  renamed_paths (self w) = Some renamed →
  apply_renaming w = (w', inr tt) →
  picked_paths (self w') = picked_paths (self w)
  ∧ renamed_paths (self w') = Some renamed
  ∧ moves (fs w) (entries (differing (picked_paths (self w)) renamed)) = Some (fs w')
  ∧ Forall (λ pair, Str.has_nul (Path.str (Path.of_str pair.1))
                    || Str.has_nul pair.2 = false)
      (differing (picked_paths (self w)) renamed).
Proof.
  intros Hr. unfold apply_renaming. run. rewrite Hr.
  destruct (for_ _ _ w) as [w1 [e|[]]] eqn:Hloop; [done|].
  apply rename_loop_outcome in Hloop as (Hself & _ & _ & Hmoves & Hnuls).
  intros [= <-]. simpl. by rewrite Hself.
Qed.

Lemma undo_renaming_run w w' renamed :
  renamed_paths (self w) = Some renamed →
  undo_renaming w = (w', inr tt) →
  moves (fs w) (swap <$> entries (differing (picked_paths (self w)) renamed))
  = Some (fs w').
Proof.
  intros Hr. unfold undo_renaming. run. rewrite Hr.
  destruct (for_ _ _ w) as [w1 [e|[]]] eqn:Hloop; [done|].
  rewrite undo_loop_swap in Hloop.
  apply rename_loop_outcome in Hloop as (Hself & _ & _ & Hmoves & _).
  rewrite entries_swap in Hmoves. by intros [= <-].
Qed.

Lemma elem_of_differing picked renamed p r :
  (p, r) ∈ differing picked renamed
  ↔ p ≠ r ∧ ∃ i, picked !! i = Some p ∧ renamed !! i = Some r.
Proof.
  unfold differing. rewrite list_elem_of_filter, list_elem_of_lookup. simpl.
  split.
  - intros [Hne [i Hi]]. split; [done|]. exists i.
    apply lookup_zip_with_Some in Hi as (? & ? & [= <- <-] & ? & ?). done.
  - intros [Hne (i & ? & ?)]. split; [done|]. exists i.
    apply lookup_zip_with_Some. by exists p, r.
Qed.

Lemma elem_of_entries_src l s :
  s ∈ (entries l).*1 → ∃ p r, (p, r) ∈ l ∧ s = entry p.
Proof.
  unfold entries. rewrite <- list_fmap_compose. intros ([p r] & -> & Hin)%list_elem_of_fmap.
  by exists p, r.
Qed.

Lemma elem_of_entries_dst l d :
  d ∈ (entries l).*2 → ∃ p r, (p, r) ∈ l ∧ d = entry r.
Proof.
  unfold entries. rewrite <- list_fmap_compose. intros ([p r] & -> & Hin)%list_elem_of_fmap.
  by exists p, r.
Qed.

Lemma swap_fst (l : list (string * string)) : (swap <$> l).*1 = l.*2.
Proof. induction l as [|[??] l IH]; [done|]. rewrite !fmap_cons. by f_equal. Qed.

Lemma swap_snd (l : list (string * string)) : (swap <$> l).*2 = l.*1.
Proof. induction l as [|[??] l IH]; [done|]. rewrite !fmap_cons. by f_equal. Qed.

(** Where [Path.exists] returns [True], the entry is there. *)
Lemma path_exists_entry files path :
  path_exists files path = inr true → is_Some (files !! entry path).
Proof.
  unfold path_exists. destruct (Str.has_nul _); [done|].
  destruct (stat_raises _ _); [done|]. rewrite entry_str. intros [= Hfollows].
  unfold MAXSYMLINKS in Hfollows. simpl in Hfollows.
  by destruct (files !! entry path).
Qed.

(** Where [Path.exists] returns [False] for a path without a null
    character, the entry is missing or holds a symbolic link. *)
Lemma path_exists_false files path :
  path_exists files path = inr false →
  Str.has_nul path = false →
  files !! entry path = None ∨ dangling files path.
Proof.
  intros Hexists Hnul. unfold dangling. rewrite Hexists.
  unfold path_exists in Hexists.
  destruct (Str.has_nul (Path.str _)) eqn:Hnul'.
  { apply has_nul_str in Hnul'. congruence. }
  destruct (stat_raises _ _); [done|]. rewrite entry_str in Hexists.
  injection Hexists as Hfollows. unfold MAXSYMLINKS in Hfollows. simpl in Hfollows.
  destruct (files !! entry path) as [[content|target]|]; [done| |by left].
  right. by exists target.
Qed.

(** C4, amended. On the flat file system of this model, where no path is
    a directory, let [recompute] return without mistakes, every picked
    path existing and no renamed path being a symbolic link that
    [Path.exists] does not follow to a file, and let every rename of
    [apply_renaming] and then of [undo_renaming] succeed: the file system
    is then what it was, each file at its picked path. *)
Theorem apply_then_undo_restores (w w0 w1 w2 : World) (renamed : list string) :
  recompute w = (w0, inr tt) →
  mistakes (self w0) = Some [] →
  renamed_paths (self w0) = Some renamed →
  Forall (λ picked_path, path_exists (fs w0) picked_path = inr true)
    (picked_paths (self w0)) →
  Forall (λ renamed_path, ¬ dangling (fs w0) renamed_path) renamed →
  apply_renaming w0 = (w1, inr tt) →
  undo_renaming w1 = (w2, inr tt) →
  fs w2 = fs w0.
Proof.
  intros (Hpicked & _ & _ & _ & Hfs & _ & Hcase)%recompute_returns Hm Hr Hexist Hlinks
    Happly Hundo.
  apply (apply_renaming_run _ _ _ Hr) in Happly as (Hpicked1 & Hr1 & Hforth & Hnuls).
  apply (undo_renaming_run _ _ _ Hr1) in Hundo as Hback. rewrite Hpicked1 in Hback.
  assert (∀ p r, (p, r) ∈ differing (picked_paths (self w0)) renamed →
                 fs w0 !! entry r = None) as Habsent.
  { intros p r Hin.
    assert (Str.has_nul r = false) as Hnul.
    { rewrite Forall_forall in Hnuls. specialize (Hnuls (p, r) Hin). simpl in Hnuls.
      by apply orb_false_iff in Hnuls as [_ ?]. }
    apply elem_of_differing in Hin as (Hne & i & Hp & Hr').
    assert (¬ dangling (fs w0) r) as Hlink.
    { rewrite Forall_forall in Hlinks. apply Hlinks. by eapply list_elem_of_lookup_2. }
    destruct Hcase as [found Hr0 _ _|compiled renamed' found _ _ _ _ Hdetect Hr0 Hm'
                      |compiled _ _ _ _ _ Hm'].
    - rewrite Hr in Hr0. injection Hr0 as ->. congruence.
    - rewrite Hr in Hr0. injection Hr0 as <-.
      rewrite Hm in Hm'. injection Hm' as <-.
      apply detect_returns in Hdetect as [Hnil Hanswers].
      rewrite <- Hfs, <- Hpicked in Hnil, Hanswers.
      unfold exists_answers in Hanswers. rewrite Forall_forall in Hanswers.
      destruct (Hanswers (p, r)) as [b Hb].
      { apply list_elem_of_lookup. exists i. apply lookup_zip_with_Some. by exists p, r. }
      { simpl. congruence. }
      simpl in Hb. destruct b.
      + assert (ExistsMistake i ∈ detected (fs w0) renamed (picked_paths (self w0)))
          as Hin by (apply exists_detected; exists p, r; split_and!; congruence).
        rewrite <- Hnil in Hin. by apply elem_of_nil in Hin.
      + by destruct (path_exists_false _ _ Hb Hnul).
    - by rewrite Hm in Hm'. }
  set (l := differing (picked_paths (self w0)) renamed) in *.
  assert (∀ s, s ∈ (entries l).*1 → is_Some (fs w0 !! s)) as Hsrc.
  { intros s (p & r & (Hne & i & Hp & _)%elem_of_differing & ->)%elem_of_entries_src.
    rewrite Forall_forall in Hexist. apply path_exists_entry, Hexist.
    by eapply list_elem_of_lookup_2. }
  assert (∀ d, d ∈ (entries l).*2 → fs w0 !! d = None) as Hdst.
  { intros d (p & r & Hin & ->)%elem_of_entries_dst. by eapply Habsent. }
  assert (∀ s d, s ∈ (entries l).*1 → d ∈ (entries l).*2 → s ≠ d) as Hdisj.
  { intros s d Hs%Hsrc Hd%Hdst ->. rewrite Hd in Hs. by destruct Hs. }
  eapply (moves_round_trip (entries l)); try done.
  - by eapply moves_NoDup_src.
  - rewrite <- swap_fst. eapply moves_NoDup_src; [|done].
    rewrite swap_fst, swap_snd. intros s d Hs Hd. symmetry. by apply Hdisj.
Qed.

End ApplyUndo.

(** * The theorems at [LiteralHost] *)

(** Solves [exists_answers] on given lists. *)
Ltac answers :=
  unfold exists_answers; simpl; repeat constructor; intros _;
  first [by exists false; vm_compute|by exists true; vm_compute].

(** Solves [Forall (λ path, ¬ dangling files path)] on given lists. *)
Ltac no_links :=
  repeat constructor; intros (target & Hlookup & _); vm_compute in Hlookup;
  discriminate.

Example session_preview :
  let w := session {[ "/tmp/a.txt" := File 1; "/tmp/b.txt" := File 2 ]} STEM "a" "c"
             ["/tmp/a.txt"; "/tmp/b.txt"] in
  renamed_paths (self w) = Some ["/tmp/c.txt"; "/tmp/b.txt"]
  ∧ mistakes (self w) = Some []
  ∧ is_apply_enabled (self w) = true
  ∧ app_state (self w) = RENAMING.
Proof. vm_compute. done. Qed.

Example session_noop :
  let w := session {[ "/tmp/a.txt" := File 1; "/tmp/b.txt" := File 2 ]} NAME "a" "a"
             ["/tmp/a.txt"; "/tmp/b.txt"] in
  renamed_paths (self w) = Some ["/tmp/a.txt"; "/tmp/b.txt"]
  ∧ is_apply_enabled (self w) = false.
Proof. vm_compute. done. Qed.

Example session_conflicts :
  let w := session {[ "/tmp/a" := File 1; "/tmp/b" := File 2; "/tmp/c" := File 3; "/tmp/x" := File 4 ]}
             NAME "b" "a" ["/tmp/a"; "/tmp/b"; "/tmp/c"] in
  renamed_paths (self w) = Some ["/tmp/a"; "/tmp/a"; "/tmp/c"]
  ∧ mistakes (self w) = Some [DuplicateMistake 0; DuplicateMistake 1; ExistsMistake 1].
Proof. vm_compute. done. Qed.

(** [recompute] does not always return: with the target [STEM] the path
    ["/"] has no name to change, and an unknown group name in the
    replacement is an [IndexError]; neither is caught. *)
Example recompute_raises :
  (@picked_paths_setter LiteralHost ["/"] (session ∅ STEM "a" "b" [])).2 = inl ValueError
  ∧ (@replace_pattern_setter LiteralHost "\g<stem>"
       (session {[ "/tmp/a" := File 1 ]} NAME "a" "b" ["/tmp/a"])).2 = inl IndexError.
Proof. vm_compute. done. Qed.

(** ** C1 *)



(** ** C2 *)

(** The replacement is set to a lone backslash while no path is picked; a
    path is then picked. [regex.sub] raises, and the renamed paths stay the
    empty list that the earlier [recompute] published: one picked path, no
    renamed path. *)
Lemma renamed_paths_length_counterexample :
  let w := session ∅ NAME "a" "\" [] in
  let w' := exec (@picked_paths_setter LiteralHost ["/tmp/a"]) w in
  @picked_paths_setter LiteralHost ["/tmp/a"] w = (w', inr tt)
  ∧ picked_paths (self w') = ["/tmp/a"]
  ∧ renamed_paths (self w') = Some []
  ∧ ¬ (∃ renamed, renamed_paths (self w') = Some renamed
                  ∧ length renamed = length (picked_paths (self w'))).
Proof.
  intros w w'. split_and!; [vm_compute; reflexivity..|].
  intros (renamed & Hr & Hlen). vm_compute in Hr. injection Hr as <-. done.
Qed.

Lemma renamed_paths_pointwise_witness :
  let w := world (mkModel ["/tmp/a"; "/tmp/b"] "a" "c" NAME None None false false EMPTY)
             {[ "/tmp/a" := File 1; "/tmp/b" := File 2 ]} in
  let w' := exec (@recompute LiteralHost) w in
  ∃ f : string → string,
    (regex (self w) = "a"
     ∧ replace_pattern (self w) = "c"
     ∧ rename_target (self w) = NAME
     ∧ @recompute LiteralHost w = (w', inr tt)
     ∧ mistakes (self w') ≠ Some [InvalidReplacePatternMistake])
    ∧ renamed_paths (self w') = Some (f <$> picked_paths (self w'))
    ∧ length (f <$> picked_paths (self w')) = length (picked_paths (self w')).
Proof.
  intros w w'.
  destruct (@renamed_paths_pointwise LiteralHost "a" "c" NAME) as [f Hf].
  exists f. split.
  - split_and!; [vm_compute; reflexivity..|]. vm_compute. discriminate.
  - apply (Hf w w'); [vm_compute; reflexivity..|]. vm_compute. discriminate.
Defined.

(** ** C3 *)

(** A preview is computed, then a backslash is typed at the end of the
    replacement: the mistake is reported and the renamed paths are still
    those of the earlier preview, neither empty nor undefined. *)
Lemma stale_renamed_paths_counterexample :
  let w := session {[ "/tmp/a" := File 1 ]} NAME "a" "b" ["/tmp/a"] in
  let w' := exec (@replace_pattern_setter LiteralHost "b\") w in
  @replace_pattern_setter LiteralHost "b\" w = (w', inr tt)
  ∧ LiteralRe.compile (regex (self w')) = inr "a"
  ∧ LiteralRe.sub "a" (replace_pattern (self w')) "a" = inl re_error
  ∧ mistakes (self w') = Some [InvalidReplacePatternMistake]
  ∧ renamed_paths (self w') = Some ["/tmp/b"]
  ∧ ¬ (renamed_paths (self w') = None ∨ renamed_paths (self w') = Some []).
Proof.
  intros w w'. split_and!; [vm_compute; reflexivity..|].
  intros [Hr|Hr]; vm_compute in Hr; discriminate.
Qed.

Lemma recompute_invalid_replacement_witness :
  let w := world (mkModel ["/tmp/a"] "a" "b\" NAME (Some ["/tmp/b"]) (Some [])
                    true false RENAMING)
             {[ "/tmp/a" := File 1 ]} in
  (regex (self w) ≠ ""
   ∧ LiteralRe.compile (regex (self w)) = inr "a"
   ∧ replace_pattern (self w) ≠ ""
   ∧ picked_paths (self w) = [] ++ "/tmp/a" :: []
   ∧ LiteralRe.sub "a" (replace_pattern (self w)) "a" = inl re_error)
  ∧ ∃ w', @recompute LiteralHost w = (w', inr tt)
      ∧ mistakes (self w') = Some [InvalidReplacePatternMistake]
      ∧ renamed_paths (self w') = renamed_paths (self w).
Proof.
  intros w. split.
  - split_and!; [discriminate|vm_compute; reflexivity|discriminate|vm_compute; reflexivity|vm_compute; reflexivity].
  - apply (@recompute_invalid_replacement LiteralHost w "a" [] [] "/tmp/a").
    + discriminate.
    + vm_compute; reflexivity.
    + discriminate.
    + vm_compute; reflexivity.
    + constructor.
    + vm_compute; reflexivity.
Defined.

(** ** C5, C6, C10 *)



Lemma recompute_empty_regex_witness :
  let w := world (mkModel ["/tmp/a"] "" "b" NAME None None false false EMPTY)
             {[ "/tmp/a" := File 1 ]} in
  regex (self w) = ""
  ∧ ∃ w', @recompute LiteralHost w = (w', inr tt)
      ∧ picked_paths (self w') = picked_paths (self w)
      ∧ renamed_paths (self w') = Some (picked_paths (self w))
      ∧ mistakes (self w') = Some []
      ∧ re_log w' = re_log w.
Proof.
  intros w. split; [vm_compute; reflexivity|].
  apply (@recompute_empty_regex LiteralHost w). vm_compute; reflexivity.
Defined.

Lemma recompute_empty_replacement_witness :
  let w := world (mkModel ["/tmp/a"] "a" "" NAME None None false false EMPTY)
             {[ "/tmp/a" := File 1 ]} in
  (regex (self w) ≠ ""
   ∧ LiteralRe.compile (regex (self w)) = inr "a"
   ∧ replace_pattern (self w) = "")
  ∧ ∃ w', @recompute LiteralHost w = (w', inr tt)
      ∧ renamed_paths (self w') = Some (picked_paths (self w))
      ∧ mistakes (self w') = Some []
      ∧ is_apply_enabled (self w') = false
      ∧ re_log w' = re_log w ++ [compile_call (regex (self w))].
Proof.
  intros w. split.
  - split_and!; [discriminate|vm_compute; reflexivity|vm_compute; reflexivity].
  - apply (@recompute_empty_replacement LiteralHost w "a");
      [discriminate|vm_compute; reflexivity|vm_compute; reflexivity].
Defined.

(** ** C7 *)

Lemma duplicate_mistakes_witness :
  let files : gmap string node := {[ "/tmp/a" := File 1; "/tmp/b" := File 2 ]} in
  let renamed := ["/tmp/c"; "/tmp/c"] in
  let picked := ["/tmp/a"; "/tmp/b"] in
  @exists_answers LiteralHost files (zip picked renamed)
  ∧ ∃ found,
      @_detect_renamed_paths_mistakes LiteralHost files renamed picked = inr found
      ∧ filter (λ m, is_duplicate m = true) found
        = duplicates_spec (take (length picked) renamed)
      ∧ ∀ i j value,
          i ≠ j →
          take (length picked) renamed !! i = Some value →
          take (length picked) renamed !! j = Some value →
          DuplicateMistake i ∈ found ∧ DuplicateMistake j ∈ found.
Proof.
  intros files renamed picked.
  assert (@exists_answers LiteralHost files (zip picked renamed)) as Hanswers by answers.
  split; [exact Hanswers|].
  apply (@duplicate_mistakes LiteralHost files renamed picked Hanswers).
Defined.

Example duplicate_mistakes_order :
  @_detect_renamed_paths_mistakes LiteralHost ∅
    ["/x"; "/y"; "/x"; "/x"; "/y"] ["/a"; "/b"; "/c"; "/d"; "/e"]
  = inr [DuplicateMistake 0; DuplicateMistake 2; DuplicateMistake 3;
         DuplicateMistake 1; DuplicateMistake 4].
Proof. vm_compute. reflexivity. Qed.

(** Two picked paths are renamed to one name of 256 characters, more than a
    file name may have: [os.stat] fails with [ENAMETOOLONG], [Path.exists]
    raises that [OSError] at the first index, and no mistake is returned,
    for either index. *)
Lemma duplicate_unreported_counterexample :
  let files : gmap string node := {[ "/tmp/a" := File 1; "/tmp/b" := File 2 ]} in
  let long := "/tmp/" +:+ Str.mul "a" 256 in
  let renamed := [long; long] in
  let picked := ["/tmp/a"; "/tmp/b"] in
  (0 ≠ 1 ∧ renamed !! 0 = Some long ∧ renamed !! 1 = Some long)
  ∧ @path_exists LiteralHost files long = inl OSError
  ∧ @_detect_renamed_paths_mistakes LiteralHost files renamed picked = inl OSError
  ∧ ¬ ∃ found,
        @_detect_renamed_paths_mistakes LiteralHost files renamed picked = inr found
        ∧ DuplicateMistake 0 ∈ found ∧ DuplicateMistake 1 ∈ found.
Proof.
  intros files long renamed picked.
  assert (@_detect_renamed_paths_mistakes LiteralHost files renamed picked = inl OSError)
    as Hraises by (vm_compute; reflexivity).
  split_and!; [done|reflexivity|reflexivity|vm_compute; reflexivity|exact Hraises|].
  intros (found & Hfound & _). rewrite Hraises in Hfound. discriminate.
Qed.

(** ** C8 *)

Lemma exists_mistake_iff_witness :
  let files : gmap string node := {[ "/tmp/a" := File 1; "/tmp/b" := File 2 ]} in
  let renamed := ["/tmp/b"; "/tmp/b"] in
  let picked := ["/tmp/a"; "/tmp/b"] in
  @exists_answers LiteralHost files (zip picked renamed)
  ∧ ∃ found,
      @_detect_renamed_paths_mistakes LiteralHost files renamed picked = inr found
      ∧ ∀ i,
          ExistsMistake i ∈ found
          ↔ ∃ picked_path renamed_path,
              picked !! i = Some picked_path
              ∧ renamed !! i = Some renamed_path
              ∧ renamed_path ≠ picked_path
              ∧ @path_exists LiteralHost files renamed_path = inr true.
Proof.
  intros files renamed picked.
  assert (@exists_answers LiteralHost files (zip picked renamed)) as Hanswers by answers.
  split; [exact Hanswers|].
  apply (@exists_mistake_iff LiteralHost files renamed picked Hanswers).
Defined.

Example exists_mistake_only_where_renamed :
  @_detect_renamed_paths_mistakes LiteralHost
    {[ "/tmp/a" := File 1; "/tmp/b" := File 2 ]} ["/tmp/b"; "/tmp/b"] ["/tmp/a"; "/tmp/b"]
  = inr [ExistsMistake 0; DuplicateMistake 0; DuplicateMistake 1].
Proof. vm_compute. reflexivity. Qed.

(** A symbolic link that leads nowhere is at the renamed path: it is a
    directory entry, one that a rename to this path replaces, but
    [Path.exists] follows the link and returns [False]. No [ExistsMistake]
    is reported. *)
Lemma exists_dangling_link_counterexample :
  let files : gmap string node :=
    {[ "/tmp/a" := File 1; "/tmp/b" := Symlink "/tmp/nowhere" ]} in
  files !! @entry LiteralHost "/tmp/b" = Some (Symlink "/tmp/nowhere")
  ∧ "/tmp/b" ≠ "/tmp/a"
  ∧ @path_exists LiteralHost files "/tmp/b" = inr false
  ∧ @_detect_renamed_paths_mistakes LiteralHost files ["/tmp/b"] ["/tmp/a"] = inr []
  ∧ fs (exec (@os_rename LiteralHost "/tmp/a" "/tmp/b") (world initial_model files))
    = {[ "/tmp/b" := File 1 ]}.
Proof. intros files. split_and!; [vm_compute; reflexivity|done|vm_compute; reflexivity..]. Qed.

(** ** C9 *)

(** A replacement that holds a ["/"] moves the file into a subdirectory: the
    parent of the renamed path is not the parent of the picked path. *)
Lemma rename_using_name_counterexample :
  let w := world initial_model ∅ in
  LiteralRe.compile "a" = inr "a"
  ∧ (@_rename_using_name LiteralHost "a" "b/c" "/tmp/a" w).2 = inr "/tmp/b/c"
  ∧ Path.str (Path.parent (Path.of_str "/tmp/b/c")) = "/tmp/b"
  ∧ Path.str (Path.parent (Path.of_str "/tmp/a")) = "/tmp"
  ∧ Path.parent (Path.of_str "/tmp/b/c") ≠ Path.parent (Path.of_str "/tmp/a").
Proof.
  intros w. split_and!; [vm_compute; reflexivity..|].
  vm_compute. discriminate.
Qed.

Lemma rename_using_name_keeps_parent_witness :
  let w := world initial_model ∅ in
  (LiteralRe.sub "a" "b" (Path.name (Path.of_str "/tmp/a")) = inr "b"
   ∧ plain "b" = true)
  ∧ ∃ renamed,
      @_rename_using_name LiteralHost "a" "b" "/tmp/a" w
      = (mkWorld (self w) (fs w)
           (re_log w ++ [sub_call "b" (Path.name (Path.of_str "/tmp/a"))]),
         inr renamed)
      ∧ Path.parent (Path.of_str renamed) = Path.parent (Path.of_str "/tmp/a")
      ∧ Path.name (Path.of_str renamed) = "b".
Proof.
  intros w. split.
  - split; vm_compute; reflexivity.
  - apply (@rename_using_name_keeps_parent LiteralHost "a" "b" "/tmp/a" "b" w);
      vm_compute; reflexivity.
Defined.

(** ** C4 *)

(** ["/tmp/b"] is picked but is not on the file system. The first rename
    puts a file there, the second moves that file on, and the third
    writes to the same entry under another spelling. Every rename of
    [apply_renaming] and of [undo_renaming] succeeds, and the two files end
    at each other's path. *)
Lemma apply_then_undo_counterexample :
  let files : gmap string node := {[ "/tmpmp/b" := File 1; "/tmp/mp/b" := File 2 ]} in
  let w0 := session files FULL "mp/b" "/b" ["/tmpmp/b"; "/tmp/b"; "/tmp/mp/b"] in
  let w1 := exec (@apply_renaming LiteralHost) w0 in
  let w2 := exec (@undo_renaming LiteralHost) w1 in
  fs w0 = files
  ∧ renamed_paths (self w0) = Some ["/tmp/b"; "/t/b"; "/tmp//b"]
  ∧ mistakes (self w0) = Some []
  ∧ is_apply_enabled (self w0) = true
  ∧ @apply_renaming LiteralHost w0 = (w1, inr tt)
  ∧ @undo_renaming LiteralHost w1 = (w2, inr tt)
  ∧ fs w2 = {[ "/tmpmp/b" := File 2; "/tmp/mp/b" := File 1 ]}
  ∧ fs w2 ≠ fs w0.
Proof.
  intros files w0 w1 w2. split_and!; [vm_compute; reflexivity..|].
  intros Heq. apply (f_equal (λ m : gmap string node, m !! "/tmpmp/b")) in Heq.
  vm_compute in Heq. discriminate.
Qed.

Lemma apply_then_undo_restores_witness :
  let files : gmap string node := {[ "/tmp/a" := File 1; "/tmp/b" := File 2 ]} in
  let w := world (mkModel ["/tmp/a"; "/tmp/b"] "a" "c" NAME None None false false EMPTY)
             files in
  let w0 := exec (@recompute LiteralHost) w in
  let w1 := exec (@apply_renaming LiteralHost) w0 in
  let w2 := exec (@undo_renaming LiteralHost) w1 in
  let renamed := ["/tmp/c"; "/tmp/b"] in
  (@recompute LiteralHost w = (w0, inr tt)
   ∧ mistakes (self w0) = Some []
   ∧ renamed_paths (self w0) = Some renamed
   ∧ Forall (λ picked_path, @path_exists LiteralHost (fs w0) picked_path = inr true)
       (picked_paths (self w0))
   ∧ Forall (λ renamed_path, ¬ @dangling LiteralHost (fs w0) renamed_path) renamed
   ∧ @apply_renaming LiteralHost w0 = (w1, inr tt)
   ∧ @undo_renaming LiteralHost w1 = (w2, inr tt))
  ∧ fs w1 = {[ "/tmp/c" := File 1; "/tmp/b" := File 2 ]}
  ∧ fs w2 = fs w0.
Proof.
  intros files w w0 w1 w2 renamed.
  assert (Forall (λ picked_path, @path_exists LiteralHost (fs w0) picked_path = inr true)
            (picked_paths (self w0))) as Hexist.
  { repeat constructor. }
  assert (Forall (λ renamed_path, ¬ @dangling LiteralHost (fs w0) renamed_path) renamed)
    as Hlinks by no_links.
  split; [split_and!; first [exact Hexist|exact Hlinks|vm_compute; reflexivity]|].
  split; [vm_compute; reflexivity|].
  apply (@apply_then_undo_restores LiteralHost w w0 w1 w2 renamed);
    first [exact Hexist|exact Hlinks|vm_compute; reflexivity].
Defined.

(** A symbolic link that leads nowhere is at the renamed path: [recompute]
    reports no mistake, [apply_renaming] replaces the link, and
    [undo_renaming] does not bring it back. *)
Example apply_then_undo_loses_link :
  let files : gmap string node :=
    {[ "/tmp/a" := File 1; "/tmp/b" := Symlink "/tmp/nowhere" ]} in
  let w0 := session files NAME "a" "b" ["/tmp/a"] in
  let w1 := exec (@apply_renaming LiteralHost) w0 in
  let w2 := exec (@undo_renaming LiteralHost) w1 in
  mistakes (self w0) = Some []
  ∧ @apply_renaming LiteralHost w0 = (w1, inr tt)
  ∧ @undo_renaming LiteralHost w1 = (w2, inr tt)
  ∧ fs w2 = {[ "/tmp/a" := File 1 ]}.
Proof. vm_compute. done. Qed.

(** * More about [_detect_renamed_paths_mistakes] *)

Section DetectMore.
Context `{Host}.

Lemma emitted_kinds files done buckets picked_path renamed_path m :
  seen done buckets →
  m ∈ emitted files (length done) picked_path renamed_path buckets →
  ∃ k, k ≤ length done
       ∧ (m = DuplicateMistake k ∨ m = ExistsMistake k ∨ m = InvalidDestinationMistake k).
Proof.
  intros Hseen. unfold emitted. rewrite !elem_of_app. intros [Hin|[Hin|Hin]].
  - specialize (Hseen renamed_path).
    destruct (buckets !! renamed_path) as [[|first [|??]]|] eqn:Hb;
      try (by apply elem_of_nil in Hin).
    + apply elem_of_cons in Hin as [->|Hin]; [eauto|]. by apply elem_of_nil in Hin.
    + apply elem_of_cons in Hin as [->|Hin].
      * exists first. split; [|by left].
        assert (first ∈ earlier done (length done) renamed_path) as Hfirst.
        { destruct (earlier done (length done) renamed_path); simplify_eq. by left. }
        apply elem_of_earlier in Hfirst. lia.
      * apply elem_of_cons in Hin as [->|Hin]; [eauto|]. by apply elem_of_nil in Hin.
    + apply elem_of_cons in Hin as [->|Hin]; [eauto|]. by apply elem_of_nil in Hin.
  - destruct (validate_filepath renamed_path); [by apply elem_of_nil in Hin|].
    apply elem_of_cons in Hin as [->|Hin]; [eauto 6|]. by apply elem_of_nil in Hin.
  - destruct (bool_decide (renamed_path ≠ picked_path) && exists_seen files renamed_path);
      [|by apply elem_of_nil in Hin].
    apply elem_of_cons in Hin as [->|Hin]; [eauto 6|]. by apply elem_of_nil in Hin.
Qed.

Lemma detected_loop_kinds files pairs : ∀ done buckets m,
  seen done buckets →
  m ∈ detected_loop files (length done) pairs buckets →
  ∃ k, k < length done + length pairs
       ∧ (m = DuplicateMistake k ∨ m = ExistsMistake k ∨ m = InvalidDestinationMistake k).
Proof.
  induction pairs as [|[picked_path renamed_path] pairs IH]; intros done buckets m Hseen.
  - simpl. by intros ?%elem_of_nil.
  - cbn [detected_loop]. rewrite elem_of_app. intros [Hin|Hin].
    + destruct (emitted_kinds _ _ _ _ _ _ Hseen Hin) as (k & ? & ?).
      exists k. split; [simpl; lia|done].
    + pose proof (IH (done ++ [renamed_path]) _ m (seen_step _ _ renamed_path Hseen)) as IH'.
      rewrite length_app, Nat.add_1_r in IH'.
      destruct (IH' Hin) as (k & ? & ?). exists k. split; [simpl; lia|done].
Qed.

Lemma detected_kinds files renamed picked m :
  m ∈ detected files renamed picked →
  ∃ k, k < length picked ∧ k < length renamed
       ∧ (m = DuplicateMistake k ∨ m = ExistsMistake k ∨ m = InvalidDestinationMistake k).
Proof.
  unfold detected. intros Hin.
  destruct (detected_loop_kinds files _ [] ∅ m seen_empty Hin) as (k & Hk & Hm).
  simpl in Hk. rewrite length_zip in Hk. exists k. split_and!; [lia..|done].
Qed.

(** X1. Every mistake that [_detect_renamed_paths_mistakes] returns is a
    destination mistake, and its index is an index of both lists. *)
Theorem detect_reports_destinations (files : gmap string node)
    (renamed picked : list string) (found : list Mistake) (m : Mistake) :
  _detect_renamed_paths_mistakes files renamed picked = inr found →
  m ∈ found →
  ∃ k, k < length picked ∧ k < length renamed
       ∧ (m = DuplicateMistake k ∨ m = ExistsMistake k ∨ m = InvalidDestinationMistake k).
Proof. intros [-> _]%detect_returns. apply detected_kinds. Qed.

Lemma invalid_emitted files k i picked_path renamed_path buckets :
  InvalidDestinationMistake k ∈ emitted files i picked_path renamed_path buckets
  ↔ k = i ∧ validate_filepath renamed_path = false.
Proof.
  unfold emitted. rewrite !elem_of_app. split.
  - intros [Hin|[Hin|Hin]].
    + destruct (buckets !! renamed_path) as [[|? [|??]]|];
        repeat (apply elem_of_cons in Hin as [?|Hin]; [done|]);
        by apply elem_of_nil in Hin.
    + destruct (validate_filepath renamed_path); [by apply elem_of_nil in Hin|].
      apply elem_of_cons in Hin as [[= ->]|Hin]; [done|]. by apply elem_of_nil in Hin.
    + destruct (bool_decide (renamed_path ≠ picked_path) && exists_seen files renamed_path);
        [|by apply elem_of_nil in Hin].
      apply elem_of_cons in Hin as [?|Hin]; [done|]. by apply elem_of_nil in Hin.
  - intros [-> Hv]. right. left. rewrite Hv. by left.
Qed.

Lemma invalid_detected_loop files k pairs : ∀ i buckets,
  InvalidDestinationMistake k ∈ detected_loop files i pairs buckets
  ↔ ∃ j picked_path renamed_path,
      pairs !! j = Some (picked_path, renamed_path) ∧ k = i + j
      ∧ validate_filepath renamed_path = false.
Proof.
  induction pairs as [|[picked_path renamed_path] pairs IH]; intros i buckets.
  - simpl. split; [by intros ?%elem_of_nil|]. by intros (? & ? & ? & ? & _).
  - cbn [detected_loop]. rewrite elem_of_app, invalid_emitted, IH. split.
    + intros [(-> & ?)|(j & p & r & ? & -> & ?)].
      * exists 0, picked_path, renamed_path. split_and!; first [done|lia].
      * exists (S j), p, r. split_and!; first [done|lia].
    + intros ([|j] & p & r & Hj & -> & ?); simpl in Hj.
      * injection Hj as <- <-. left. split_and!; first [done|lia].
      * right. exists j, p, r. split_and!; first [done|lia].
Qed.

Lemma invalid_detected files renamed picked i :
  InvalidDestinationMistake i ∈ detected files renamed picked
  ↔ ∃ picked_path renamed_path,
      picked !! i = Some picked_path
      ∧ renamed !! i = Some renamed_path
      ∧ validate_filepath renamed_path = false.
Proof.
  unfold detected. rewrite invalid_detected_loop. split.
  - intros (j & p & r & Hj & -> & ?).
    apply lookup_zip_with_Some in Hj as (? & ? & [= <- <-] & ? & ?).
    by exists p, r.
  - intros (p & r & ? & ? & ?). exists i, p, r. split_and!; try done.
    apply lookup_zip_with_Some. by exists p, r.
Qed.

(** X2. When [Path.exists] raises on none of the renamed paths it is
    called on, [_detect_renamed_paths_mistakes] returns, and it reports
    [InvalidDestinationMistake i] exactly when there is a pair at index [i]
    and [validate_filepath] rejects its renamed path; the picked path plays
    no part. *)
Theorem invalid_destination_iff (files : gmap string node)
    (renamed picked : list string) :
  exists_answers files (zip picked renamed) →
  ∃ found,
    _detect_renamed_paths_mistakes files renamed picked = inr found
    ∧ ∀ i,
        InvalidDestinationMistake i ∈ found
        ↔ ∃ picked_path renamed_path,
            picked !! i = Some picked_path
            ∧ renamed !! i = Some renamed_path
            ∧ validate_filepath renamed_path = false.
Proof.
  intros Hanswers. exists (detected files renamed picked).
  split; [by apply detect_answers|]. intros i. apply invalid_detected.
Qed.

(** A Duplicate mistake is only due to another entry with the same path. *)
Lemma duplicate_spec_inv renamed k :
  DuplicateMistake k ∈ duplicates_spec renamed →
  ∃ j value, j ≠ k ∧ renamed !! k = Some value ∧ renamed !! j = Some value.
Proof.
  unfold duplicates_spec. intros (i & _ & Hin)%list_elem_of_In%in_flat_map.
  apply list_elem_of_In in Hin. unfold duplicates_at in Hin.
  destruct (renamed !! i) as [value|] eqn:Hi; [|by apply elem_of_nil in Hin].
  destruct (earlier renamed i value) as [|first [|second rest]] eqn:Hearlier.
  - by apply elem_of_nil in Hin.
  - assert (first ∈ earlier renamed i value) as [Hlt Hfirst]%elem_of_earlier
      by (rewrite Hearlier; by left).
    apply elem_of_cons in Hin as [[= ->]|Hin].
    + exists i, value. split_and!; [lia|done..].
    + apply elem_of_cons in Hin as [[= ->]|Hin]; [|by apply elem_of_nil in Hin].
      exists first, value. split_and!; [lia|done..].
  - assert (first ∈ earlier renamed i value) as [Hlt Hfirst]%elem_of_earlier
      by (rewrite Hearlier; by left).
    apply elem_of_cons in Hin as [[= ->]|Hin]; [|by apply elem_of_nil in Hin].
    exists first, value. split_and!; [lia|done..].
Qed.

Lemma detected_nothing files renamed picked :
  detected files renamed picked = []
  ↔ NoDup (take (length picked) renamed)
    ∧ ∀ i picked_path renamed_path,
        picked !! i = Some picked_path →
        renamed !! i = Some renamed_path →
        validate_filepath renamed_path = true
        ∧ (renamed_path ≠ picked_path → path_exists files renamed_path ≠ inr true).
Proof.
  pose proof (duplicates_detected files renamed picked) as Hdup.
  split.
  - intros Hnil. rewrite Hnil in Hdup. split.
    + apply NoDup_alt. intros i j value Hi Hj.
      destruct (decide (i = j)) as [|Hne]; [done|].
      pose proof (duplicate_of_repeat _ _ _ _ Hne Hi Hj) as Hin.
      rewrite <- Hdup in Hin. by apply elem_of_nil in Hin.
    + intros i p r Hp Hr. split.
      * destruct (validate_filepath r) eqn:Hv; [done|].
        assert (InvalidDestinationMistake i ∈ detected files renamed picked) as Hin
          by (apply invalid_detected; by exists p, r).
        rewrite Hnil in Hin. by apply elem_of_nil in Hin.
      * intros Hne Hex.
        assert (ExistsMistake i ∈ detected files renamed picked) as Hin
          by (apply exists_detected; by exists p, r).
        rewrite Hnil in Hin. by apply elem_of_nil in Hin.
  - intros [Hnodup Hok].
    destruct (detected files renamed picked) as [|m rest] eqn:Hd; [done|exfalso].
    assert (m ∈ detected files renamed picked) as Hin by (rewrite Hd; by left).
    destruct (detected_kinds _ _ _ _ Hin) as (k & _ & _ & [->|[->| ->]]).
    + assert (DuplicateMistake k ∈ duplicates_spec (take (length picked) renamed)) as Hk.
      { rewrite <- Hdup. apply list_elem_of_filter. split; [done|by left]. }
      apply duplicate_spec_inv in Hk as (j & value & Hne & Hk & Hj).
      apply Hne. by eapply (proj1 (NoDup_alt _) Hnodup).
    + apply exists_detected in Hin as (p & r & Hp & Hr & Hne & Hex).
      by destruct (Hok _ _ _ Hp Hr) as [_ Hno]; destruct (Hno Hne).
    + apply invalid_detected in Hin as (p & r & Hp & Hr & Hv).
      destruct (Hok _ _ _ Hp Hr) as [Hvalid _]. congruence.
Qed.

(** X3. [_detect_renamed_paths_mistakes] returns the empty list exactly
    when the renamed paths of the pairs are pairwise different strings,
    each is accepted by [validate_filepath], and [Path.exists] returns
    [False] for each that differs from its picked path. *)
Theorem detect_nothing_iff (files : gmap string node) (renamed picked : list string) :
  _detect_renamed_paths_mistakes files renamed picked = inr []
  ↔ NoDup (take (length picked) renamed)
    ∧ ∀ i picked_path renamed_path,
        picked !! i = Some picked_path →
        renamed !! i = Some renamed_path →
        validate_filepath renamed_path = true
        ∧ (renamed_path ≠ picked_path → path_exists files renamed_path = inr false).
Proof.
  split.
  - intros [Hnil Hanswers]%detect_returns. symmetry in Hnil.
    apply detected_nothing in Hnil as [Hnodup Hok]. split; [done|].
    intros i p r Hp Hr. destruct (Hok _ _ _ Hp Hr) as [Hvalid Hno]. split; [done|].
    intros Hne. unfold exists_answers in Hanswers. rewrite Forall_forall in Hanswers.
    destruct (Hanswers (p, r)) as [[] Hb]; [|done|by destruct (Hno Hne)|done].
    apply list_elem_of_lookup. exists i. apply lookup_zip_with_Some. by exists p, r.
  - intros [Hnodup Hok].
    assert (exists_answers files (zip picked renamed)) as Hanswers.
    { apply Forall_forall. intros [p r] [i Hi]%list_elem_of_lookup Hne.
      apply lookup_zip_with_Some in Hi as (? & ? & [= <- <-] & Hp & Hr).
      exists false. by apply (Hok _ _ _ Hp Hr). }
    rewrite (detect_answers _ _ _ Hanswers). f_equal.
    apply detected_nothing. split; [done|].
    intros i p r Hp Hr. destruct (Hok _ _ _ Hp Hr) as [Hvalid Hno]. split; [done|].
    intros Hne. by rewrite (Hno Hne).
Qed.

End DetectMore.

(** * More about [recompute] *)

Section RecomputeMore.
Context `{Host}.

(** X4. Whether it returns or raises, [recompute] leaves the file system,
    the four inbound properties and [is_undo_enabled] as they were, and only
    adds to the log of [re] calls. *)
Theorem recompute_frame (w : World) :
  fs (exec recompute w) = fs w
  ∧ picked_paths (self (exec recompute w)) = picked_paths (self w)
  ∧ regex (self (exec recompute w)) = regex (self w)
  ∧ replace_pattern (self (exec recompute w)) = replace_pattern (self w)
  ∧ rename_target (self (exec recompute w)) = rename_target (self w)
  ∧ is_undo_enabled (self (exec recompute w)) = is_undo_enabled (self w)
  ∧ re_log w `prefix_of` re_log (exec recompute w).
Proof.
  unfold exec, recompute. run.
  destruct (bool_decide (regex (self w) ≠ "")); simpl.
  - destruct (re_compile (regex (self w))) as [e|compiled]; simpl.
    + destruct (bool_decide (e = re_error)); simpl;
        split_and!; try done; by apply prefix_app_r.
    + destruct (bool_decide (replace_pattern (self w) ≠ "")); simpl.
      * rewrite comprehension_run. simpl.
        destruct (rename_all _ _ _ _) as [e|renamed]; simpl.
        -- destruct (bool_decide (e = re_error)); simpl;
             split_and!; try done; by do 2 apply prefix_app_r.
        -- destruct (_detect_renamed_paths_mistakes _ _ _); simpl;
             split_and!; try done; by do 2 apply prefix_app_r.
      * split_and!; try done; by apply prefix_app_r.
  - split_and!; done.
Qed.

Ltac fields :=
  cbv [set_is_apply_enabled set_mistakes set_renamed_paths set_app_state
       picked_paths regex replace_pattern rename_target renamed_paths mistakes
       is_apply_enabled is_undo_enabled app_state self fs].

(** X5. [recompute] is idempotent on the model: run again on the world it
    returned, it returns again and leaves the same model and the same
    files. *)
Theorem recompute_idempotent (w w1 : World) :
  recompute w = (w1, inr tt) →
  ∃ w2, recompute w1 = (w2, inr tt) ∧ self w2 = self w1 ∧ fs w2 = fs w1.
Proof.
  destruct w as [[picked regex_text repl target renamed0 found0 enabled undo state]
                 files calls].
  unfold recompute. run.
  destruct (bool_decide (regex_text ≠ "")) eqn:Hregex; simpl.
  - destruct (re_compile regex_text) as [e|compiled] eqn:Hcompile; simpl.
    + destruct (bool_decide (e = re_error)) eqn:He; simpl; [|done].
      intros [= <-]. simpl. rewrite Hregex, Hcompile. simpl. rewrite He. simpl.
      eexists. split; [reflexivity|]. fields. by rewrite ?Hregex, ?Hrepl.
    + destruct (bool_decide (repl ≠ "")) eqn:Hrepl; simpl.
      * rewrite comprehension_run. simpl.
        destruct (rename_all _ _ _ _) as [e|renamed] eqn:Hall; simpl.
        -- destruct (bool_decide (e = re_error)) eqn:He; simpl; [|done].
           intros [= <-]. simpl. rewrite Hregex, Hcompile. simpl. rewrite Hrepl. simpl.
           rewrite comprehension_run. simpl. rewrite Hall. simpl. rewrite He. simpl.
           eexists. split; [reflexivity|]. fields. by rewrite ?Hregex, ?Hrepl.
        -- destruct (_detect_renamed_paths_mistakes files renamed picked)
             as [e|found] eqn:Hdetect; simpl; [done|].
           intros [= <-]. simpl. rewrite Hregex, Hcompile. simpl. rewrite Hrepl. simpl.
           rewrite comprehension_run. simpl. rewrite Hall. simpl. rewrite Hdetect. simpl.
           eexists. split; [reflexivity|]. fields. by rewrite ?Hregex, ?Hrepl.
      * intros [= <-]. simpl. rewrite Hregex, Hcompile. simpl. rewrite Hrepl. simpl.
        eexists. split; [reflexivity|]. fields. by rewrite ?Hregex, ?Hrepl.
  - intros [= <-]. simpl. rewrite Hregex. simpl.
    eexists. split; [reflexivity|]. fields. by rewrite ?Hregex, ?Hrepl.
Qed.

(** X6. With no picked path, [recompute] never calls [regex.sub]: provided
    [re.compile] raises nothing but [re.error], it returns with the empty
    list of renamed paths, apply disabled and the state [EMPTY], and the only
    mistake it can report is [InvalidRegexMistake]. A replacement that
    [regex.sub] would reject is not reported. *)
Theorem recompute_no_paths (w : World) :
  picked_paths (self w) = [] →
  (∀ e, regex (self w) ≠ "" → re_compile (regex (self w)) = inl e → e = re_error) →
  ∃ w', recompute w = (w', inr tt)
    ∧ renamed_paths (self w') = Some []
    ∧ (mistakes (self w') = Some [] ∨ mistakes (self w') = Some [InvalidRegexMistake])
    ∧ is_apply_enabled (self w') = false
    ∧ app_state (self w') = EMPTY
    ∧ ∃ calls, re_log w' = re_log w ++ calls
               ∧ Forall (λ c, is_sub_call c = false) calls.
Proof.
  destruct w as [[picked regex_text repl target renamed0 found0 enabled undo state]
                 files calls].
  simpl. intros -> Honly. unfold recompute. run.
  destruct (bool_decide (regex_text ≠ "")) eqn:Hregex; simpl.
  - apply bool_decide_eq_true in Hregex.
    destruct (re_compile regex_text) as [e|compiled] eqn:Hcompile; simpl.
    + rewrite (Honly e Hregex eq_refl). simpl.
      eexists. split; [reflexivity|]. simpl.
      split_and!; [done|by right|by rewrite !andb_false_r|done|].
      eexists. split; [reflexivity|]. by repeat constructor.
    + destruct (bool_decide (repl ≠ "")); simpl.
      * eexists. split; [reflexivity|]. simpl.
        split_and!; [done|by left|by rewrite !andb_false_r|done|].
        eexists. split; [reflexivity|]. by repeat constructor.
      * eexists. split; [reflexivity|]. simpl.
        split_and!; [done|by left|by rewrite !andb_false_r|done|].
        eexists. split; [reflexivity|]. by repeat constructor.
  - eexists. split; [reflexivity|]. simpl.
    split_and!; [done|by left|by rewrite !andb_false_r|done|].
    exists []. split; [by rewrite app_nil_r|]. constructor.
Qed.

Lemma detect_kinds files renamed picked found m :
  _detect_renamed_paths_mistakes files renamed picked = inr found →
  m ∈ found →
  ∃ k, k < length picked
       ∧ (m = DuplicateMistake k ∨ m = ExistsMistake k ∨ m = InvalidDestinationMistake k).
Proof. intros [-> _]%detect_returns (k & ? & _ & ?)%detected_kinds. eauto. Qed.

(** X7. The mistakes that [recompute] publishes are either the single
    [InvalidRegexMistake], or the single [InvalidReplacePatternMistake], or
    destination mistakes only, each with the index of a picked path. *)
Theorem recompute_mistakes_shape (w w' : World) :
  recompute w = (w', inr tt) →
  ∃ found, mistakes (self w') = Some found
    ∧ (found = [InvalidRegexMistake]
       ∨ found = [InvalidReplacePatternMistake]
       ∨ Forall (λ m, ∃ k, k < length (picked_paths (self w'))
                           ∧ (m = DuplicateMistake k ∨ m = ExistsMistake k
                              ∨ m = InvalidDestinationMistake k)) found).
Proof.
  intros (Hpicked & _ & _ & _ & _ & _ & Hcase)%recompute_returns.
  destruct Hcase as [found _ Hm Hwhy|compiled renamed found _ _ _ _ Hdetect _ Hm
                    |compiled _ _ _ _ _ Hm].
  - exists found. split; [done|].
    destruct Hwhy as [[_ ->]|[(_ & _ & ->)|(_ & _ & -> & _)]]; auto.
  - eexists. split; [done|]. right. right. apply Forall_forall.
    intros m Hin. rewrite Hpicked. by eapply detect_kinds.
  - eexists. split; [done|]. auto.
Qed.

(** X8. After [recompute], [InvalidRegexMistake] is among the mistakes
    exactly when the regex is not empty and [re.compile] raised [re.error];
    [InvalidReplacePatternMistake] exactly when the regex compiled, the
    replacement is not empty and the list comprehension of renames raised
    [re.error]. *)
Theorem configuration_mistakes_iff (w w' : World) :
  recompute w = (w', inr tt) →
  ∃ found, mistakes (self w') = Some found
    ∧ (InvalidRegexMistake ∈ found
       ↔ regex (self w) ≠ "" ∧ re_compile (regex (self w)) = inl re_error)
    ∧ (InvalidReplacePatternMistake ∈ found
       ↔ ∃ compiled,
           regex (self w) ≠ ""
           ∧ re_compile (regex (self w)) = inr compiled
           ∧ replace_pattern (self w) ≠ ""
           ∧ rename_all compiled (replace_pattern (self w)) (rename_target (self w))
               (picked_paths (self w)) = inl re_error).
Proof.
  intros (_ & _ & _ & _ & _ & _ & Hcase)%recompute_returns.
  destruct Hcase as [found _ Hm Hwhy
                    |compiled renamed found Hregex Hcompile Hrepl Hall Hdetect _ Hm
                    |compiled Hregex Hcompile Hrepl Hall _ Hm].
  - exists found. split; [done|].
    destruct Hwhy as [[Hregex ->]|[(Hregex & Hcompile & ->)
                                  |(Hregex & Hrepl & -> & compiled & Hcompile)]].
    + split; (split; [by intros ?%elem_of_nil|]).
      * by intros [? _].
      * by intros (? & ? & _).
    + split; split.
      * done.
      * intros _. by left.
      * intros [?|?%elem_of_nil]%elem_of_cons; done.
      * intros (? & _ & ? & _). congruence.
    + split; (split; [by intros ?%elem_of_nil|]).
      * intros [_ ?]. congruence.
      * by intros (? & _ & _ & ? & _).
  - eexists. split; [done|]. split; split.
    + intros (k & _ & [?|[?|?]])%(detect_kinds _ _ _ _ _ Hdetect); done.
    + intros [_ ?]. congruence.
    + intros (k & _ & [?|[?|?]])%(detect_kinds _ _ _ _ _ Hdetect); done.
    + intros (c & _ & Hc & _ & Hall'). rewrite Hcompile in Hc.
      injection Hc as <-. congruence.
  - eexists. split; [done|]. split; split.
    + intros [?|?%elem_of_nil]%elem_of_cons; done.
    + intros [_ ?]. congruence.
    + intros _. exists compiled. done.
    + intros _. by left.
Qed.

(** X9. [recompute] raises what [re.compile] or the list comprehension of
    renames raises, unless that is [re.error], and the [OSError] that
    [Path.exists] raises in [_detect_renamed_paths_mistakes]. In the first
    two cases it has set [app_state] and nothing else; in the third it has
    also assigned the new renamed paths. In all three [mistakes] and
    [is_apply_enabled] keep the values of the run before. *)
Theorem recompute_raises_stale (w w' : World) (e : exn) :
  recompute w = (w', inl e) →
  regex (self w) ≠ ""
  ∧ fs w' = fs w
  ∧ mistakes (self w') = mistakes (self w)
  ∧ is_apply_enabled (self w') = is_apply_enabled (self w)
  ∧ (e ≠ re_error
     ∧ (re_compile (regex (self w)) = inl e
        ∨ ∃ compiled,
            re_compile (regex (self w)) = inr compiled
            ∧ replace_pattern (self w) ≠ ""
            ∧ rename_all compiled (replace_pattern (self w)) (rename_target (self w))
                (picked_paths (self w)) = inl e)
     ∧ self w'
       = set_app_state (match picked_paths (self w) with [] => EMPTY | _ => RENAMING end)
           (self w)
     ∨ e = OSError
       ∧ ∃ compiled renamed,
           re_compile (regex (self w)) = inr compiled
           ∧ replace_pattern (self w) ≠ ""
           ∧ rename_all compiled (replace_pattern (self w)) (rename_target (self w))
               (picked_paths (self w)) = inr renamed
           ∧ _detect_renamed_paths_mistakes (fs w) renamed (picked_paths (self w))
             = inl OSError
           ∧ self w'
             = set_renamed_paths (Some renamed)
                 (set_app_state
                    (match picked_paths (self w) with [] => EMPTY | _ => RENAMING end)
                    (self w))).
Proof.
  unfold recompute. run.
  destruct (bool_decide (regex (self w) ≠ "")) eqn:Hregex; simpl; [|done].
  apply bool_decide_eq_true in Hregex.
  destruct (re_compile (regex (self w))) as [e'|compiled] eqn:Hcompile; simpl.
  - destruct (bool_decide (e' = re_error)) eqn:He; simpl; [done|].
    apply bool_decide_eq_false in He. intros [= <- <-]. split_and!; try done.
    left. split_and!; try done. by left.
  - destruct (bool_decide (replace_pattern (self w) ≠ "")) eqn:Hrepl; simpl; [|done].
    apply bool_decide_eq_true in Hrepl.
    rewrite comprehension_run. simpl.
    destruct (rename_all _ _ _ _) as [e'|renamed] eqn:Hall; simpl.
    + destruct (bool_decide (e' = re_error)) eqn:He; simpl; [done|].
      apply bool_decide_eq_false in He. intros [= <- <-]. split_and!; try done.
      left. split_and!; try done. right. by exists compiled.
    + destruct (_detect_renamed_paths_mistakes _ _ _) as [e'|found] eqn:Hdetect;
        simpl; [|done].
      intros [= <- <-]. destruct (detect_raises _ _ _ _ Hdetect) as [-> _].
      split_and!; try done. right. split; [done|]. by exists compiled, renamed.
Qed.

Lemma recompute_app_state (w : World) :
  app_state (self (exec recompute w))
  = match picked_paths (self w) with [] => EMPTY | _ => RENAMING end.
Proof.
  unfold exec, recompute. run.
  destruct (bool_decide (regex (self w) ≠ "")); simpl; [|done].
  destruct (re_compile (regex (self w))) as [e|compiled]; simpl.
  - by destruct (bool_decide (e = re_error)).
  - destruct (bool_decide (replace_pattern (self w) ≠ "")); simpl; [|done].
    rewrite comprehension_run. simpl.
    destruct (rename_all _ _ _ _) as [e|renamed]; simpl.
    + by destruct (bool_decide (e = re_error)).
    + by destruct (_detect_renamed_paths_mistakes _ _ _).
Qed.

(** X10. What [recompute] publishes does not depend on what was published
    before, with one exception. From two states with the same inbound
    properties and the same files, it leaves the same mistakes, the same
    [is_apply_enabled] and the same [app_state]; and the same renamed
    paths, unless the mistake is [InvalidReplacePatternMistake], in which
    case each state keeps the renamed paths it had. *)
Theorem recompute_history_free (w v w1 v1 : World) :
  picked_paths (self w) = picked_paths (self v) →
  regex (self w) = regex (self v) →
  replace_pattern (self w) = replace_pattern (self v) →
  rename_target (self w) = rename_target (self v) →
  fs w = fs v →
  recompute w = (w1, inr tt) →
  recompute v = (v1, inr tt) →
  mistakes (self w1) = mistakes (self v1)
  ∧ is_apply_enabled (self w1) = is_apply_enabled (self v1)
  ∧ app_state (self w1) = app_state (self v1)
  ∧ (mistakes (self w1) ≠ Some [InvalidReplacePatternMistake] →
     renamed_paths (self w1) = renamed_paths (self v1)).
Proof.
  intros Hpicked Hregex Hrepl Htarget Hfs Hw Hv.
  assert (app_state (self w1) = app_state (self v1)) as Hstate.
  { pose proof (recompute_app_state w) as Hsw. pose proof (recompute_app_state v) as Hsv.
    unfold exec in Hsw, Hsv. rewrite Hw in Hsw. rewrite Hv in Hsv. simpl in *.
    by rewrite Hsw, Hsv, Hpicked. }
  apply recompute_returns in Hw as (Hp1 & Hr1 & Hrepl1 & _ & _ & Hen1 & Hcase1).
  apply recompute_returns in Hv as (Hp2 & Hr2 & Hrepl2 & _ & _ & Hen2 & Hcase2).
  assert (mistakes (self w1) = mistakes (self v1)
          ∧ (mistakes (self w1) ≠ Some [InvalidReplacePatternMistake] →
             renamed_paths (self w1) = renamed_paths (self v1))) as [Hm Hrenamed].
  { destruct Hcase1 as [found1 Hrp1 Hm1 Hwhy1
                       |compiled1 renamed1 detected1 Hne1 Hc1 Hnr1 Hall1 Hd1 Hrp1 Hm1
                       |compiled1 Hne1 Hc1 Hnr1 Hall1 Hrp1 Hm1];
      destruct Hcase2 as [found2 Hrp2 Hm2 Hwhy2
                         |compiled2 renamed2 detected2 Hne2 Hc2 Hnr2 Hall2 Hd2 Hrp2 Hm2
                         |compiled2 Hne2 Hc2 Hnr2 Hall2 Hrp2 Hm2];
      rewrite <- ?Hpicked, <- ?Hregex, <- ?Hrepl, <- ?Htarget, <- ?Hfs in *.
    - rewrite Hm1, Hm2, Hrp1, Hrp2. split; [|done]. f_equal.
      destruct Hwhy1 as [[? ->]|[(? & ? & ->)|(? & ? & -> & ? & ?)]];
        destruct Hwhy2 as [[? ->]|[(? & ? & ->)|(? & ? & -> & ? & ?)]];
        done || congruence.
    - exfalso. destruct Hwhy1 as [[? ?]|[(? & ? & ?)|(? & ? & ?)]]; congruence.
    - exfalso. destruct Hwhy1 as [[? ?]|[(? & ? & ?)|(? & ? & ?)]]; congruence.
    - exfalso. destruct Hwhy2 as [[? ?]|[(? & ? & ?)|(? & ? & ?)]]; congruence.
    - rewrite Hc1 in Hc2. injection Hc2 as <-. rewrite Hall1 in Hall2.
      injection Hall2 as <-. rewrite Hd1 in Hd2. injection Hd2 as <-.
      rewrite Hm1, Hm2, Hrp1, Hrp2. done.
    - rewrite Hc1 in Hc2. injection Hc2 as <-. congruence.
    - exfalso. destruct Hwhy2 as [[? ?]|[(? & ? & ?)|(? & ? & ?)]]; congruence.
    - rewrite Hc1 in Hc2. injection Hc2 as <-. congruence.
    - rewrite Hm1, Hm2. done. }
  split_and!; [done| |done|done].
  rewrite Hen1, Hen2. unfold can_apply.
  rewrite Hp1, Hp2, Hr1, Hr2, Hrepl1, Hrepl2, <- Hm, <- Hpicked, <- Hregex, <- Hrepl.
  destruct (decide (mistakes (self w1) = Some [InvalidReplacePatternMistake])) as [Heq|Hne].
  - rewrite Heq. simpl. by rewrite !andb_false_r.
  - by rewrite (Hrenamed Hne).
Qed.

End RecomputeMore.

(** * More about [apply_renaming] and [undo_renaming] *)

Section ApplyUndoMore.
Context `{Host}.

Lemma moves_absent_stays l : ∀ files files' k,
  moves files l = Some files' → files !! k = None → k ∉ l.*2 → files' !! k = None.
Proof.
  induction l as [|[s0 d0] l IH]; intros files files' k Hrun Hnone Hdst; simpl in *.
  - by injection Hrun as <-.
  - unfold move in Hrun. destruct (files !! s0) as [file|] eqn:Hs0; [|done].
    apply not_elem_of_cons in Hdst as [? ?].
    apply (IH _ _ _ Hrun); [|done].
    rewrite lookup_insert_ne by done.
    destruct (decide (s0 = k)) as [->|?]; [by rewrite lookup_delete_eq|].
    by rewrite lookup_delete_ne.
Qed.

Lemma elem_of_swap (l : list (string * string)) a b :
  (a, b) ∈ swap <$> l ↔ (b, a) ∈ l.
Proof.
  rewrite list_elem_of_fmap. split.
  - intros ([x y] & [= -> ->] & Hin). done.
  - intros Hin. by exists (b, a).
Qed.

(** X11. [apply_renaming] and [undo_renaming] write [app_state] and
    [is_undo_enabled] only: whether they return or raise, the other
    properties of the model and the log of calls into [re] are as they
    were. In particular [is_apply_enabled] is not withdrawn by a successful
    [apply_renaming]. *)
Theorem renaming_keeps_properties (w : World) :
  let kept (w' : World) :=
    picked_paths (self w') = picked_paths (self w)
    ∧ regex (self w') = regex (self w)
    ∧ replace_pattern (self w') = replace_pattern (self w)
    ∧ rename_target (self w') = rename_target (self w)
    ∧ renamed_paths (self w') = renamed_paths (self w)
    ∧ mistakes (self w') = mistakes (self w)
    ∧ is_apply_enabled (self w') = is_apply_enabled (self w)
    ∧ re_log w' = re_log w in
  kept (exec apply_renaming w) ∧ kept (exec undo_renaming w).
Proof.
  simpl. unfold exec, apply_renaming, undo_renaming. run.
  destruct (renamed_paths (self w)) as [renamed|] eqn:Hr; [|simpl; by rewrite ?Hr].
  split.
  - destruct (for_ _ _ w) as [w1 res] eqn:Hloop.
    apply rename_loop_outcome in Hloop as (Hself & Hlog & _ & _).
    destruct res as [e|[]]; simpl; rewrite Hself, Hlog, ?Hr; done.
  - destruct (for_ _ _ w) as [w1 res] eqn:Hloop.
    rewrite undo_loop_swap in Hloop.
    apply rename_loop_outcome in Hloop as (Hself & Hlog & _ & _).
    destruct res as [e|[]]; simpl; rewrite Hself, Hlog, ?Hr; done.
Qed.

(** X12. On the flat file system of this model, [apply_renaming] and
    [undo_renaming] touch no directory entry but
    those of a picked path and of its renamed path where the two differ:
    every other entry holds what it held, whether the method returns or
    raises. *)
Theorem renaming_frame (w : World) (renamed : list string) (k : string) :
  renamed_paths (self w) = Some renamed →
  (∀ p r, (p, r) ∈ differing (picked_paths (self w)) renamed →
          k ≠ entry p ∧ k ≠ entry r) →
  fs (exec apply_renaming w) !! k = fs w !! k
  ∧ fs (exec undo_renaming w) !! k = fs w !! k.
Proof.
  intros Hr Hk. unfold exec, apply_renaming, undo_renaming. run. rewrite Hr.
  split.
  - destruct (for_ _ _ w) as [w1 res] eqn:Hloop.
    apply rename_loop_outcome in Hloop as (_ & _ & Hframe & _).
    destruct res as [e|[]]; simpl; by apply Hframe.
  - destruct (for_ _ _ w) as [w1 res] eqn:Hloop.
    rewrite undo_loop_swap in Hloop.
    apply rename_loop_outcome in Hloop as (_ & _ & Hframe & _).
    assert (fs w1 !! k = fs w !! k) as Hkept.
    { apply Hframe. intros src dst Hin. rewrite elem_of_swap in Hin.
      destruct (Hk _ _ Hin). done. }
    destruct res as [e|[]]; simpl; done.
Qed.

(** X13. On the flat file system of this model: when [apply_renaming]
    raises, one of its renames raised, [ValueError] for a null character
    in one of its two paths, or [OSError], the source being missing or the
    operating system refusing. The renames before that one stay done,
    nothing is rolled back, and the model is untouched: [app_state] is not
    [RENAMED] and [is_undo_enabled] is not set by this call. *)
Theorem apply_renaming_raises (w w' : World) (renamed : list string) (e : exn) :
  renamed_paths (self w) = Some renamed →
  apply_renaming w = (w', inl e) →
  self w' = self w
  ∧ ∃ done p r rest,
      differing (picked_paths (self w)) renamed = done ++ (p, r) :: rest
      ∧ moves (fs w) (entries done) = Some (fs w')
      ∧ (e = ValueError
         ∧ Str.has_nul (Path.str (Path.of_str p)) || Str.has_nul r = true
         ∨ e = OSError
           ∧ Str.has_nul (Path.str (Path.of_str p)) || Str.has_nul r = false
           ∧ (fs w' !! entry p = None
              ∨ os_refuses (fs w') (Path.str (Path.of_str p)) r = true)).
Proof.
  intros Hr. unfold apply_renaming. run. rewrite Hr.
  destruct (for_ _ _ w) as [w1 res] eqn:Hloop.
  apply rename_loop_outcome in Hloop as (Hself & _ & _ & Hres).
  destruct res as [e'|[]]; [|done].
  intros [= <- <-]. done.
Qed.

(** X14. On the flat file system of this model: when [undo_renaming]
    raises, one of its renames raised, [ValueError] for a null character
    in one of its two paths, or [OSError], the source, a renamed path,
    being missing or the operating system refusing. The renames before
    that one stay undone and the model is untouched: [is_undo_enabled] is
    not withdrawn. *)
Theorem undo_renaming_raises (w w' : World) (renamed : list string) (e : exn) :
  renamed_paths (self w) = Some renamed →
  undo_renaming w = (w', inl e) →
  self w' = self w
  ∧ ∃ done p r rest,
      differing (picked_paths (self w)) renamed = done ++ (p, r) :: rest
      ∧ moves (fs w) (swap <$> entries done) = Some (fs w')
      ∧ (e = ValueError
         ∧ Str.has_nul (Path.str (Path.of_str r)) || Str.has_nul p = true
         ∨ e = OSError
           ∧ Str.has_nul (Path.str (Path.of_str r)) || Str.has_nul p = false
           ∧ (fs w' !! entry r = None
              ∨ os_refuses (fs w') (Path.str (Path.of_str r)) p = true)).
Proof.
  intros Hr. unfold undo_renaming. run. rewrite Hr.
  destruct (for_ _ _ w) as [w1 res] eqn:Hloop.
  rewrite undo_loop_swap in Hloop.
  apply rename_loop_outcome in Hloop as (Hself & _ & _ & Hres).
  destruct res as [e'|[]]; [|done].
  intros [= <- <-]. destruct Hres as (done & src & dst & rest & Hl & Hmoves & Hwhy).
  split; [done|].
  apply fmap_app_inv in Hl as (done' & rest' & -> & Hrest & Hl).
  destruct rest' as [|[p r] rest']; [done|].
  rewrite fmap_cons in Hrest. injection Hrest as -> -> ->.
  exists done', p, r, rest'. split_and!; [done| |done].
  by rewrite entries_swap in Hmoves.
Qed.

(** X15. On the flat file system of this model, where no path is a
    directory, [apply_renaming] cannot be repeated: after it returned, where no
    destination is the entry of the first path to rename, a second call
    finds that path gone, raises [OSError] at its first rename and changes
    nothing. *)
Theorem apply_renaming_twice (w w1 : World) (renamed : list string)
    (p r : string) (rest : list (string * string)) :
  renamed_paths (self w) = Some renamed →
  differing (picked_paths (self w)) renamed = (p, r) :: rest →
  (∀ p' r', (p', r') ∈ differing (picked_paths (self w)) renamed →
            entry r' ≠ entry p) →
  apply_renaming w = (w1, inr tt) →
  apply_renaming w1 = (w1, inl OSError).
Proof.
  intros Hr Hl Hdst Happly.
  apply (apply_renaming_run _ _ _ Hr) in Happly as (Hpicked & Hr1 & Hmoves & Hnuls).
  rewrite Hl in Hnuls. apply Forall_cons in Hnuls as [Hnul _]. simpl in Hnul.
  assert (fs w1 !! entry p = None) as Hgone.
  { rewrite Hl in Hmoves. simpl in Hmoves. unfold move in Hmoves.
    destruct (fs w !! entry p) as [file|]; [|done].
    apply (moves_absent_stays _ _ _ _ Hmoves).
    - rewrite lookup_insert_ne, lookup_delete_eq; [done|].
      apply (Hdst p r). rewrite Hl. by left.
    - intros (p' & r' & Hin & Heq)%elem_of_entries_dst.
      apply (Hdst p' r'); [|done]. rewrite Hl. by right. }
  unfold apply_renaming. run. rewrite Hr1, Hpicked, Hl. simpl.
  unfold mbind, M_bind, Path_rename, os_rename. rewrite Hnul, entry_str, Hgone. done.
Qed.

End ApplyUndoMore.

(** * More about the three ways of renaming *)

Section RenameMore.
Context `{Host}.

Lemma components_one x : plain x = true → Path.components x = [x].
Proof. intros Hx. apply (components_join [x]). by constructor. Qed.

Lemma parse_reversed_plain tail : ∀ pre,
  Forall (λ x, plain x = true) tail →
  Path.parse_reversed (rev (pre ++ tail))
  = ((Path.parse_reversed (rev pre)).1, (Path.parse_reversed (rev pre)).2 ++ tail).
Proof.
  induction tail as [|x tail IH] using rev_ind; intros pre Htail.
  - rewrite !app_nil_r. by destruct (Path.parse_reversed _).
  - apply Forall_app in Htail as [Htail Hx%Forall_inv].
    rewrite app_assoc, rev_unit. simpl.
    pose proof (plain_starts _ Hx) as Hstart.
    pose proof Hx as (Hne & _)%plain_spec.
    rewrite (bool_decide_eq_false_2 _ Hne).
    unfold Path.splitroot. rewrite Hstart. simpl.
    rewrite IH by done. rewrite components_one by done. simpl.
    by rewrite app_assoc.
Qed.

Lemma parse_parts_normal q : normal q → Path.parse_parts (_parts q) = q.
Proof.
  destruct q as [root parts]. intros [Hroot (tail & Hparts & Htail)]. simpl in *.
  subst parts. unfold Path.parse_parts. rewrite parse_reversed_plain by done.
  destruct Hroot as [->|[->| ->]]; done.
Qed.

Lemma parse_reversed_normal l :
  ((Path.parse_reversed l).1 = "" ∨ (Path.parse_reversed l).1 = "/"
   ∨ (Path.parse_reversed l).1 = "//")
  ∧ Forall (λ x, plain x = true) (Path.parse_reversed l).2.
Proof.
  induction l as [|part l IH]; simpl.
  - split; [by left|done].
  - case_bool_decide; [done|].
    unfold Path.splitroot. destruct (Str.starts_sep part).
    + case_bool_decide; simpl; (split; [auto|apply components_plain]).
    + simpl. destruct (Path.parse_reversed l) as [root' parsed]. simpl in *.
      destruct IH as [? ?]. split; [done|].
      apply Forall_app. split; [done|apply components_plain].
Qed.

Lemma parse_parts_is_normal segments : normal (Path.parse_parts segments).
Proof.
  unfold Path.parse_parts.
  pose proof (parse_reversed_normal (rev segments)) as [Hroot Hparsed].
  destruct (Path.parse_reversed (rev segments)) as [root parsed]. simpl in *.
  split; [done|]. simpl. exists parsed. split; [|done].
  unfold anchor. by destruct (bool_decide _).
Qed.

Lemma normal_join a b : normal a → normal b → normal (Path.join_parsed_parts a b).
Proof.
  intros Ha Hb. unfold Path.join_parsed_parts. case_bool_decide as Hroot; [done|].
  destruct Ha as [Hra (ta & Hpa & Hta)]. destruct Hb as [_ (tb & Hpb & Htb)].
  split; [done|]. simpl. exists (ta ++ tb). split.
  - rewrite Hpa, Hpb, Hroot. simpl. by rewrite app_assoc.
  - by apply Forall_app.
Qed.

Lemma ends_sep_has_sep s : Str.has_sep s = false → Str.ends_sep s = false.
Proof.
  induction s as [|c s IH]; [done|]. simpl. intros [Hc Hs]%orb_false_iff.
  destruct s; [done|]. by apply IH.
Qed.

Lemma parent_of_named p :
  Path.name p ≠ "" → Path.parent p = mkPath (_root p) (removelast (_parts p)).
Proof.
  unfold Path.name, Path.parent. intros Hname.
  destruct (bool_decide (_root p ≠ "")); simpl.
  - case_bool_decide; [done|]. done.
  - by rewrite andb_false_r.
Qed.

Lemma with_name_plain p n :
  Path.name p ≠ "" → plain n = true →
  Path.with_name p n = Some (mkPath (_root p) (_parts (Path.parent p) ++ [n])).
Proof.
  intros Hname Hplain. unfold Path.with_name.
  rewrite (bool_decide_eq_false_2 _ Hname), (parse_plain _ Hplain).
  rewrite (parent_of_named _ Hname). simpl.
  apply plain_spec in Hplain as (Hne & _ & Hsep).
  by rewrite (bool_decide_eq_false_2 _ Hne), (ends_sep_has_sep _ Hsep).
Qed.

Lemma root_parent p : _root (Path.parent p) = _root p.
Proof. unfold Path.parent. by destruct (_ && _). Qed.

(** X16. With the target [STEM] and a picked path that has a root,
    [regex.sub] is called once, on the stem of the final component; when
    what it returns, followed by the suffix, is a plain name, the renamed
    path has the parent of the picked path and that name as its final
    component. *)
Theorem rename_using_stem_absolute (compiled : Pattern) (repl path s : string)
    (w : World) :
  _root (Path.of_str path) ≠ "" →
  Path.name (Path.of_str path) ≠ "" →
  Pattern_sub compiled repl (Path.stem (Path.of_str path)) = inr s →
  plain (s +:+ Path.suffix (Path.of_str path)) = true →
  ∃ renamed,
    _rename_using_stem compiled repl path w
    = (mkWorld (self w) (fs w)
         (re_log w ++ [sub_call repl (Path.stem (Path.of_str path))]),
       inr renamed)
    ∧ Path.parent (Path.of_str renamed) = Path.parent (Path.of_str path)
    ∧ Path.name (Path.of_str renamed) = s +:+ Path.suffix (Path.of_str path).
Proof.
  intros Hroot Hname Hsub Hplain.
  pose proof (normal_parent _ (of_str_normal path)) as Hparent.
  pose proof (normal_snoc _ _ Hparent Hplain) as Hnew.
  unfold _rename_using_stem, mbind, M_bind, sub, log, lift, Path.with_stem. simpl.
  rewrite Hsub, (with_name_plain _ _ Hname Hplain), <- (root_parent (Path.of_str path)).
  eexists. split; [reflexivity|].
  unfold Path.div_path, Path._make_child. rewrite (parse_parts_normal _ Hnew).
  unfold Path.join_parsed_parts. simpl.
  rewrite root_parent, (bool_decide_eq_true_2 _ Hroot), <- (root_parent (Path.of_str path)).
  rewrite (of_str_str _ Hnew).
  by rewrite parent_snoc, name_snoc.
Qed.

(** X17. With the target [STEM] and a picked path without a root, the
    parent of the picked path comes twice in the renamed path:
    [p.with_stem] already holds the parent, and [p.parent / ...] puts the
    parent before it again. *)
Theorem rename_using_stem_relative (compiled : Pattern) (repl path s : string)
    (w : World) :
  _root (Path.of_str path) = "" →
  Path.name (Path.of_str path) ≠ "" →
  Pattern_sub compiled repl (Path.stem (Path.of_str path)) = inr s →
  plain (s +:+ Path.suffix (Path.of_str path)) = true →
  ∃ renamed,
    _rename_using_stem compiled repl path w
    = (mkWorld (self w) (fs w)
         (re_log w ++ [sub_call repl (Path.stem (Path.of_str path))]),
       inr renamed)
    ∧ Path.of_str renamed
      = mkPath "" (_parts (Path.parent (Path.of_str path))
                   ++ _parts (Path.parent (Path.of_str path))
                   ++ [s +:+ Path.suffix (Path.of_str path)]).
Proof.
  intros Hroot Hname Hsub Hplain.
  pose proof (normal_parent _ (of_str_normal path)) as Hparent.
  pose proof (normal_snoc _ _ Hparent Hplain) as Hnew.
  unfold _rename_using_stem, mbind, M_bind, sub, log, lift, Path.with_stem. simpl.
  rewrite Hsub, (with_name_plain _ _ Hname Hplain), <- (root_parent (Path.of_str path)).
  eexists. split; [reflexivity|].
  unfold Path.div_path, Path._make_child. rewrite (parse_parts_normal _ Hnew).
  unfold Path.join_parsed_parts. simpl.
  rewrite root_parent, Hroot. simpl.
  apply of_str_str.
  destruct Hparent as [_ (tail & Hparts & Htail)].
  rewrite root_parent, Hroot in Hparts. simpl in Hparts.
  split; [by left|]. simpl. eexists. split; [reflexivity|].
  rewrite Hparts. repeat (apply Forall_app; split); try done. by constructor.
Qed.

(** X18. With the target [STEM], a picked path without a final component
    (the root, or the empty path) makes [_rename] raise [ValueError], once
    [regex.sub] has returned. *)
Theorem rename_using_stem_no_name (compiled : Pattern) (repl path s : string) :
  Path.name (Path.of_str path) = "" →
  Pattern_sub compiled repl "" = inr s →
  _rename_result compiled path repl STEM = inl ValueError.
Proof.
  intros Hname Hsub.
  unfold _rename_result, _rename, _rename_using_stem, mbind, M_bind, sub, log, lift,
    Path.with_stem, Path.with_name, Path.stem. simpl.
  rewrite Hname. simpl. by rewrite Hsub.
Qed.

(** X19. With the targets [NAME] and [STEM], the renamed path is a path
    string in the form that [pathlib] prints: parsing it and printing it
    again gives the same string. With [FULL] it is what [regex.sub]
    returned, as it is. *)
Theorem renamed_path_printed (compiled : Pattern) (repl path renamed : string)
    (target : RenameTarget) :
  target ≠ FULL →
  _rename_result compiled path repl target = inr renamed →
  Path.str (Path.of_str renamed) = renamed.
Proof.
  intros Htarget.
  pose proof (normal_parent _ (of_str_normal path)) as Hparent.
  unfold _rename_result, _rename, _rename_using_name, _rename_using_stem,
    mbind, M_bind, sub, log, lift.
  destruct target; [done| |]; simpl.
  - destruct (Pattern_sub _ _ _) as [e|name]; [done|]. intros [= <-].
    rewrite of_str_str; [done|].
    apply normal_join; [done|apply parse_parts_is_normal].
  - destruct (Pattern_sub _ _ _) as [e|stem]; [done|].
    destruct (Path.with_stem _ _) as [name|]; [|done]. intros [= <-].
    rewrite of_str_str; [done|].
    apply normal_join; [done|apply parse_parts_is_normal].
Qed.

End RenameMore.

(** * The mistakes that the renaming page shows *)

Section RenamingPage.
Context `{Host}.

Lemma indexed_snoc (mistakes : list Mistake) (m : Mistake) :
  indexed_rename_destination_mistakes (mistakes ++ [m])
  = match culprit_index_of m with
    | Some i => <[i := m]> (indexed_rename_destination_mistakes mistakes)
    | None => indexed_rename_destination_mistakes mistakes
    end.
Proof. unfold indexed_rename_destination_mistakes. by rewrite foldl_app. Qed.

(** X20. In the dict that the renaming page builds from the mistakes, the
    entry of an index is the last mistake of the list that carries this
    index; a mistake without an index gives no entry. *)
Theorem indexed_mistakes_last (mistakes : list Mistake) (i : nat) (m : Mistake) :
  indexed_rename_destination_mistakes mistakes !! i = Some m
  ↔ ∃ before after,
      mistakes = before ++ m :: after
      ∧ culprit_index_of m = Some i
      ∧ Forall (λ m', culprit_index_of m' ≠ Some i) after.
Proof.
  induction mistakes as [|x mistakes IH] using rev_ind.
  - split; [done|]. intros (before & after & Heq & _). by destruct before.
  - rewrite indexed_snoc. destruct (culprit_index_of x) as [j|] eqn:Hx.
    + destruct (decide (j = i)) as [->|Hne].
      * rewrite lookup_insert_eq. split.
        -- intros [= <-]. exists mistakes, []. done.
        -- intros (before & after & Heq & Hm & Hafter).
           destruct after as [|y after _] using rev_ind.
           ++ apply app_inj_tail in Heq as [_ ->]. done.
           ++ rewrite app_comm_cons, app_assoc in Heq.
              apply app_inj_tail in Heq as [_ ->].
              apply Forall_app in Hafter as [_ Hy%Forall_inv]. done.
      * rewrite lookup_insert_ne by done. rewrite IH. split.
        -- intros (before & after & -> & Hm & Hafter).
           exists before, (after ++ [x]). split_and!; [by rewrite <- app_assoc|done|].
           apply Forall_app. split; [done|]. constructor; [|done]. congruence.
        -- intros (before & after & Heq & Hm & Hafter).
           destruct after as [|y after _] using rev_ind.
           ++ apply app_inj_tail in Heq as [_ ->]. congruence.
           ++ rewrite app_comm_cons, app_assoc in Heq.
              apply app_inj_tail in Heq as [-> ->].
              apply Forall_app in Hafter as [Hafter _]. by exists before, after.
    + rewrite IH. split.
      * intros (before & after & -> & Hm & Hafter).
        exists before, (after ++ [x]). split_and!; [by rewrite <- app_assoc|done|].
        apply Forall_app. split; [done|]. constructor; [|done]. congruence.
      * intros (before & after & Heq & Hm & Hafter).
        destruct after as [|y after _] using rev_ind.
        -- apply app_inj_tail in Heq as [_ ->]. congruence.
        -- rewrite app_comm_cons, app_assoc in Heq.
           apply app_inj_tail in Heq as [-> ->].
           apply Forall_app in Hafter as [Hafter _]. by exists before, after.
Qed.

Lemma indexed_is_Some (mistakes : list Mistake) (i : nat) :
  is_Some (indexed_rename_destination_mistakes mistakes !! i)
  ↔ ∃ m, m ∈ mistakes ∧ culprit_index_of m = Some i.
Proof.
  induction mistakes as [|x mistakes IH] using rev_ind.
  - split; [by intros [? ?]|]. by intros (m & ?%elem_of_nil & _).
  - rewrite indexed_snoc.
    assert ((∃ m, m ∈ mistakes ++ [x] ∧ culprit_index_of m = Some i)
            ↔ culprit_index_of x = Some i
              ∨ ∃ m, m ∈ mistakes ∧ culprit_index_of m = Some i) as ->.
    { split.
      - intros (m & [Hin|[->|?%elem_of_nil]%elem_of_cons]%elem_of_app & Hm);
          [right; by exists m|by left|done].
      - intros [Hx|(m & Hin & Hm)].
        + exists x. split; [|done]. apply elem_of_app. right. by left.
        + exists m. split; [|done]. apply elem_of_app. by left. }
    rewrite <- IH. destruct (culprit_index_of x) as [j|] eqn:Hx.
    + destruct (decide (j = i)) as [->|Hne].
      * rewrite lookup_insert_eq. split; [by left|done].
      * rewrite lookup_insert_ne by done. split; [by right|].
        intros [?|?]; [congruence|done].
    + split; [by right|]. by intros [?|?].
Qed.

Lemma flagged_detected (files : gmap string node) (renamed picked : list string)
    (i : nat) :
  is_Some (indexed_rename_destination_mistakes (detected files renamed picked) !! i)
  ↔ ∃ p r,
      picked !! i = Some p ∧ renamed !! i = Some r
      ∧ ((∃ j, j ≠ i ∧ j < length picked ∧ renamed !! j = Some r)
         ∨ validate_filepath r = false
         ∨ (r ≠ p ∧ path_exists files r = inr true)).
Proof.
  rewrite indexed_is_Some. split.
  - intros (m & Hin & Hm).
    destruct m as [| |k|k|k]; simpl in Hm; try done; injection Hm as ->.
    + assert (DuplicateMistake i ∈ duplicates_spec (take (length picked) renamed)) as Hd.
      { rewrite <- (duplicates_detected files). by apply list_elem_of_filter. }
      apply duplicate_spec_inv in Hd as (j & value & Hne & Hi & Hj).
      apply lookup_take_Some in Hi as [Hi Hlt]. apply lookup_take_Some in Hj as [Hj Hjlt].
      destruct (lookup_lt_is_Some_2 picked i Hlt) as [p Hp].
      exists p, value. split_and!; [done|done|]. left. by exists j.
    + apply exists_detected in Hin as (p & r & Hp & Hr & Hne & Hex).
      exists p, r. split_and!; [done|done|]. by right; right.
    + apply invalid_detected in Hin as (p & r & Hp & Hr & Hinv).
      exists p, r. split_and!; [done|done|]. by right; left.
  - intros (p & r & Hp & Hr & [(j & Hne & Hlt & Hj)|[Hinv|[Hne Hex]]]).
    + exists (DuplicateMistake i). split; [|done].
      assert (DuplicateMistake i ∈ duplicates_spec (take (length picked) renamed)) as Hd.
      { apply (duplicate_of_repeat _ r i j); [done| |];
          apply lookup_take_Some; (split; [done|]); [|done].
        by eapply lookup_lt_Some. }
      rewrite <- (duplicates_detected files) in Hd.
      by apply list_elem_of_filter in Hd as [_ ?].
    + exists (InvalidDestinationMistake i). split; [|done].
      apply invalid_detected. by exists p, r.
    + exists (ExistsMistake i). split; [|done].
      apply exists_detected. by exists p, r.
Qed.

(** X21. When [Path.exists] raises on none of the renamed paths it is
    called on, [_detect_renamed_paths_mistakes] returns, and the dict that
    the renaming page builds from its mistakes has an entry for the index
    [i] exactly when the renamed path of that index is also the renamed
    path of another index, or is not a valid file path, or differs from
    the picked path and [Path.exists] returns [True] for it. *)
Theorem flagged_entry_iff (files : gmap string node) (renamed picked : list string) :
  exists_answers files (zip picked renamed) →
  ∃ found,
    _detect_renamed_paths_mistakes files renamed picked = inr found
    ∧ ∀ i,
        is_Some (indexed_rename_destination_mistakes found !! i)
        ↔ ∃ p r,
            picked !! i = Some p ∧ renamed !! i = Some r
            ∧ ((∃ j, j ≠ i ∧ j < length picked ∧ renamed !! j = Some r)
               ∨ validate_filepath r = false
               ∨ (r ≠ p ∧ path_exists files r = inr true)).
Proof.
  intros Hanswers. exists (detected files renamed picked).
  split; [by apply detect_answers|]. intros i. apply flagged_detected.
Qed.

End RenamingPage.

(** * The further theorems at [LiteralHost] *)

Lemma detect_reports_destinations_witness :
  let files : gmap string node := {[ "/tmp/b" := File 1 ]} in
  (@_detect_renamed_paths_mistakes LiteralHost files ["/tmp/b"] ["/tmp/a"]
   = inr [ExistsMistake 0]
   ∧ ExistsMistake 0 ∈ [ExistsMistake 0])
  ∧ ∃ k, k < length ["/tmp/a"] ∧ k < length ["/tmp/b"]
         ∧ (ExistsMistake 0 = DuplicateMistake k ∨ ExistsMistake 0 = ExistsMistake k
            ∨ ExistsMistake 0 = InvalidDestinationMistake k).
Proof.
  intros files.
  assert (ExistsMistake 0 ∈ [ExistsMistake 0]) as Hin by constructor.
  split; [split; [vm_compute; reflexivity|exact Hin]|].
  apply (@detect_reports_destinations LiteralHost files ["/tmp/b"] ["/tmp/a"]
           [ExistsMistake 0] (ExistsMistake 0)); [vm_compute; reflexivity|exact Hin].
Defined.

(** A renamed path with a control character is not a valid file path. *)
Lemma invalid_destination_iff_witness :
  let files : gmap string node := {[ "/tmp/a" := File 1 ]} in
  let renamed := ["/tmp/" +:+ String (ascii_of_nat 8) ""] in
  let picked := ["/tmp/a"] in
  @exists_answers LiteralHost files (zip picked renamed)
  ∧ @_detect_renamed_paths_mistakes LiteralHost files renamed picked
    = inr [InvalidDestinationMistake 0]
  ∧ ∃ found,
      @_detect_renamed_paths_mistakes LiteralHost files renamed picked = inr found
      ∧ ∀ i,
          InvalidDestinationMistake i ∈ found
          ↔ ∃ picked_path renamed_path,
              picked !! i = Some picked_path
              ∧ renamed !! i = Some renamed_path
              ∧ posix_validate_filepath renamed_path = false.
Proof.
  intros files renamed picked.
  assert (@exists_answers LiteralHost files (zip picked renamed)) as Hanswers by answers.
  split; [exact Hanswers|]. split; [vm_compute; reflexivity|].
  apply (@invalid_destination_iff LiteralHost files renamed picked Hanswers).
Defined.

(** The renamed path has a name of 256 characters: [Path.exists] raises, and
    so does the detection, whatever [validate_filepath] says of the other
    paths. *)
Example detect_raises_on_long_name :
  let files : gmap string node := {[ "/tmp/a" := File 1; "/tmp/b" := File 2 ]} in
  let long := "/tmp/" +:+ Str.mul "a" 256 in
  @_detect_renamed_paths_mistakes LiteralHost files
    ["/tmp/" +:+ String (ascii_of_nat 8) ""; long] ["/tmp/a"; "/tmp/b"]
  = inl OSError.
Proof. vm_compute. reflexivity. Qed.

Lemma recompute_idempotent_witness :
  let w := world (mkModel ["/tmp/a"] "a" "b" NAME None None false false EMPTY)
             {[ "/tmp/a" := File 1 ]} in
  let w1 := exec (@recompute LiteralHost) w in
  @recompute LiteralHost w = (w1, inr tt)
  ∧ ∃ w2, @recompute LiteralHost w1 = (w2, inr tt) ∧ self w2 = self w1 ∧ fs w2 = fs w1.
Proof.
  intros w w1. split; [vm_compute; reflexivity|].
  apply (@recompute_idempotent LiteralHost w w1). vm_compute; reflexivity.
Defined.

(** No path is picked and the replacement is one that [regex.sub] rejects:
    no mistake is reported. *)
Lemma recompute_no_paths_witness :
  let w := world (mkModel [] "a" "\" NAME None None false false EMPTY) ∅ in
  (picked_paths (self w) = []
   ∧ ∀ e, regex (self w) ≠ "" → LiteralRe.compile (regex (self w)) = inl e → e = re_error)
  ∧ ∃ w', @recompute LiteralHost w = (w', inr tt)
      ∧ renamed_paths (self w') = Some []
      ∧ (mistakes (self w') = Some [] ∨ mistakes (self w') = Some [InvalidRegexMistake])
      ∧ is_apply_enabled (self w') = false
      ∧ app_state (self w') = EMPTY
      ∧ ∃ calls, re_log w' = re_log w ++ calls
                 ∧ Forall (λ c, is_sub_call c = false) calls.
Proof.
  intros w.
  assert (∀ e, regex (self w) ≠ "" → LiteralRe.compile (regex (self w)) = inl e
               → e = re_error) as Honly.
  { intros e _ Hcompile. vm_compute in Hcompile. discriminate. }
  split; [split; [reflexivity|exact Honly]|].
  apply (@recompute_no_paths LiteralHost w); [reflexivity|exact Honly].
Defined.

Lemma recompute_mistakes_shape_witness :
  let w := world (mkModel ["/tmp/a"] "a" "b" NAME None None false false EMPTY)
             {[ "/tmp/a" := File 1; "/tmp/b" := File 2 ]} in
  let w' := exec (@recompute LiteralHost) w in
  @recompute LiteralHost w = (w', inr tt)
  ∧ ∃ found, mistakes (self w') = Some found
      ∧ (found = [InvalidRegexMistake]
         ∨ found = [InvalidReplacePatternMistake]
         ∨ Forall (λ m, ∃ k, k < length (picked_paths (self w'))
                             ∧ (m = DuplicateMistake k ∨ m = ExistsMistake k
                                ∨ m = InvalidDestinationMistake k)) found).
Proof.
  intros w w'. split; [vm_compute; reflexivity|].
  apply (@recompute_mistakes_shape LiteralHost w w'). vm_compute; reflexivity.
Defined.

Lemma configuration_mistakes_iff_witness :
  let w := world (mkModel ["/tmp/a"] "a" "b\" NAME None None false false EMPTY)
             {[ "/tmp/a" := File 1 ]} in
  let w' := exec (@recompute LiteralHost) w in
  @recompute LiteralHost w = (w', inr tt)
  ∧ ∃ found, mistakes (self w') = Some found
      ∧ (InvalidRegexMistake ∈ found
         ↔ regex (self w) ≠ "" ∧ LiteralRe.compile (regex (self w)) = inl re_error)
      ∧ (InvalidReplacePatternMistake ∈ found
         ↔ ∃ compiled,
             regex (self w) ≠ ""
             ∧ LiteralRe.compile (regex (self w)) = inr compiled
             ∧ replace_pattern (self w) ≠ ""
             ∧ @rename_all LiteralHost compiled (replace_pattern (self w))
                 (rename_target (self w)) (picked_paths (self w)) = inl re_error).
Proof.
  intros w w'. split; [vm_compute; reflexivity|].
  apply (@configuration_mistakes_iff LiteralHost w w'). vm_compute; reflexivity.
Defined.

(** The root is picked with the target [STEM]: [recompute] raises
    [ValueError]. *)
Lemma recompute_raises_stale_witness :
  let w := world (mkModel ["/"] "a" "b" STEM (Some ["/tmp/old"]) (Some []) true false
                    EMPTY) ∅ in
  let w' := exec (@recompute LiteralHost) w in
  @recompute LiteralHost w = (w', inl ValueError)
  ∧ regex (self w) ≠ ""
  ∧ fs w' = fs w
  ∧ mistakes (self w') = mistakes (self w)
  ∧ is_apply_enabled (self w') = is_apply_enabled (self w)
  ∧ (ValueError ≠ re_error
     ∧ (LiteralRe.compile (regex (self w)) = inl ValueError
        ∨ ∃ compiled,
            LiteralRe.compile (regex (self w)) = inr compiled
            ∧ replace_pattern (self w) ≠ ""
            ∧ @rename_all LiteralHost compiled (replace_pattern (self w))
                (rename_target (self w)) (picked_paths (self w)) = inl ValueError)
     ∧ self w'
       = set_app_state (match picked_paths (self w) with [] => EMPTY | _ => RENAMING end)
           (self w)
     ∨ ValueError = OSError
       ∧ ∃ compiled renamed,
           LiteralRe.compile (regex (self w)) = inr compiled
           ∧ replace_pattern (self w) ≠ ""
           ∧ @rename_all LiteralHost compiled (replace_pattern (self w))
               (rename_target (self w)) (picked_paths (self w)) = inr renamed
           ∧ @_detect_renamed_paths_mistakes LiteralHost (fs w) renamed
               (picked_paths (self w)) = inl OSError
           ∧ self w'
             = set_renamed_paths (Some renamed)
                 (set_app_state
                    (match picked_paths (self w) with [] => EMPTY | _ => RENAMING end)
                    (self w))).
Proof.
  intros w w'. split; [vm_compute; reflexivity|].
  apply (@recompute_raises_stale LiteralHost w w' ValueError). vm_compute; reflexivity.
Defined.

(** The replacement is a name of 256 characters: [Path.exists] raises in the
    detection. The renamed paths are those of this run, the mistakes and
    the apply button those of the run before. *)
Example recompute_raises_in_detection :
  let w := session {[ "/tmp/a" := File 1 ]} NAME "a" "b" ["/tmp/a"] in
  let w' := exec (@replace_pattern_setter LiteralHost (Str.mul "b" 256)) w in
  @replace_pattern_setter LiteralHost (Str.mul "b" 256) w = (w', inl OSError)
  ∧ renamed_paths (self w') = Some ["/tmp/" +:+ Str.mul "b" 256]
  ∧ mistakes (self w') = Some []
  ∧ is_apply_enabled (self w') = true.
Proof. vm_compute. done. Qed.

Lemma recompute_history_free_witness :
  let files : gmap string node := {[ "/tmp/a" := File 1 ]} in
  let w := world (mkModel ["/tmp/a"] "a" "b" NAME None None false false EMPTY) files in
  let v := world (mkModel ["/tmp/a"] "a" "b" NAME (Some ["/tmp/old"])
                    (Some [InvalidRegexMistake]) true true RENAMED) files in
  let w1 := exec (@recompute LiteralHost) w in
  let v1 := exec (@recompute LiteralHost) v in
  (picked_paths (self w) = picked_paths (self v)
   ∧ regex (self w) = regex (self v)
   ∧ replace_pattern (self w) = replace_pattern (self v)
   ∧ rename_target (self w) = rename_target (self v)
   ∧ fs w = fs v
   ∧ @recompute LiteralHost w = (w1, inr tt)
   ∧ @recompute LiteralHost v = (v1, inr tt))
  ∧ mistakes (self w1) = mistakes (self v1)
  ∧ is_apply_enabled (self w1) = is_apply_enabled (self v1)
  ∧ app_state (self w1) = app_state (self v1)
  ∧ (mistakes (self w1) ≠ Some [InvalidReplacePatternMistake] →
     renamed_paths (self w1) = renamed_paths (self v1)).
Proof.
  intros files w v w1 v1. split.
  - split_and!; first [reflexivity|vm_compute; reflexivity].
  - apply (@recompute_history_free LiteralHost w v w1 v1);
      first [reflexivity|vm_compute; reflexivity].
Defined.

Lemma renaming_frame_witness :
  let w := world (mkModel ["/tmp/a"] "a" "b" NAME (Some ["/tmp/b"]) (Some []) true false
                    RENAMING)
             {[ "/tmp/a" := File 1; "/tmp/z" := File 2 ]} in
  (renamed_paths (self w) = Some ["/tmp/b"]
   ∧ ∀ p r, (p, r) ∈ differing (picked_paths (self w)) ["/tmp/b"] →
            "/tmp/z" ≠ @entry LiteralHost p ∧ "/tmp/z" ≠ @entry LiteralHost r)
  ∧ fs (exec (@apply_renaming LiteralHost) w) !! "/tmp/z" = fs w !! "/tmp/z"
  ∧ fs (exec (@undo_renaming LiteralHost) w) !! "/tmp/z" = fs w !! "/tmp/z".
Proof.
  intros w.
  assert (∀ p r, (p, r) ∈ differing (picked_paths (self w)) ["/tmp/b"] →
                 "/tmp/z" ≠ @entry LiteralHost p ∧ "/tmp/z" ≠ @entry LiteralHost r)
    as Hother.
  { intros p r Hin.
    replace (differing (picked_paths (self w)) ["/tmp/b"])
      with [("/tmp/a", "/tmp/b")] in Hin by (vm_compute; reflexivity).
    apply elem_of_cons in Hin as [[= -> ->]|Hin%elem_of_nil]; [|done].
    split; vm_compute; discriminate. }
  split; [split; [reflexivity|exact Hother]|].
  apply (@renaming_frame LiteralHost w ["/tmp/b"] "/tmp/z"); [reflexivity|exact Hother].
Defined.

(** The second picked path is not on the file system: the first rename is
    done and stays done. *)
Lemma apply_renaming_raises_witness :
  let w := world (mkModel ["/tmp/a"; "/tmp/b"] "" "" NAME (Some ["/tmp/c"; "/tmp/d"])
                    (Some []) true false RENAMING)
             {[ "/tmp/a" := File 1 ]} in
  let w' := exec (@apply_renaming LiteralHost) w in
  (renamed_paths (self w) = Some ["/tmp/c"; "/tmp/d"]
   ∧ @apply_renaming LiteralHost w = (w', inl OSError))
  ∧ fs w' = {[ "/tmp/c" := File 1 ]}
  ∧ self w' = self w
  ∧ ∃ done p r rest,
      differing (picked_paths (self w)) ["/tmp/c"; "/tmp/d"] = done ++ (p, r) :: rest
      ∧ moves (fs w) (@entries LiteralHost done) = Some (fs w')
      ∧ (OSError = ValueError
         ∧ Str.has_nul (Path.str (Path.of_str p)) || Str.has_nul r = true
         ∨ OSError = OSError
           ∧ Str.has_nul (Path.str (Path.of_str p)) || Str.has_nul r = false
           ∧ (fs w' !! @entry LiteralHost p = None
              ∨ @os_refuses LiteralHost (fs w') (Path.str (Path.of_str p)) r = true)).
Proof.
  intros w w'. split; [split; [reflexivity|vm_compute; reflexivity]|].
  split; [vm_compute; reflexivity|].
  apply (@apply_renaming_raises LiteralHost w w' ["/tmp/c"; "/tmp/d"] OSError);
    [reflexivity|vm_compute; reflexivity].
Defined.

(** A renamed path with a null character: the rename raises [ValueError]. *)
Example apply_renaming_null_character :
  let w := world (mkModel ["/tmp/a"] "" "" NAME (Some ["/tmp/" +:+ String Str.NUL ""])
                    (Some []) true false RENAMING)
             {[ "/tmp/a" := File 1 ]} in
  @apply_renaming LiteralHost w = (w, inl ValueError).
Proof. vm_compute. reflexivity. Qed.

Lemma undo_renaming_raises_witness :
  let w := world (mkModel ["/tmp/a"; "/tmp/b"] "" "" NAME (Some ["/tmp/c"; "/tmp/d"])
                    (Some []) true true RENAMED)
             {[ "/tmp/c" := File 1 ]} in
  let w' := exec (@undo_renaming LiteralHost) w in
  (renamed_paths (self w) = Some ["/tmp/c"; "/tmp/d"]
   ∧ @undo_renaming LiteralHost w = (w', inl OSError))
  ∧ fs w' = {[ "/tmp/a" := File 1 ]}
  ∧ self w' = self w
  ∧ ∃ done p r rest,
      differing (picked_paths (self w)) ["/tmp/c"; "/tmp/d"] = done ++ (p, r) :: rest
      ∧ moves (fs w) (swap <$> @entries LiteralHost done) = Some (fs w')
      ∧ (OSError = ValueError
         ∧ Str.has_nul (Path.str (Path.of_str r)) || Str.has_nul p = true
         ∨ OSError = OSError
           ∧ Str.has_nul (Path.str (Path.of_str r)) || Str.has_nul p = false
           ∧ (fs w' !! @entry LiteralHost r = None
              ∨ @os_refuses LiteralHost (fs w') (Path.str (Path.of_str r)) p = true)).
Proof.
  intros w w'. split; [split; [reflexivity|vm_compute; reflexivity]|].
  split; [vm_compute; reflexivity|].
  apply (@undo_renaming_raises LiteralHost w w' ["/tmp/c"; "/tmp/d"] OSError);
    [reflexivity|vm_compute; reflexivity].
Defined.

Lemma apply_renaming_twice_witness :
  let w := world (mkModel ["/tmp/a"] "a" "b" NAME (Some ["/tmp/b"]) (Some []) true false
                    RENAMING)
             {[ "/tmp/a" := File 1 ]} in
  let w1 := exec (@apply_renaming LiteralHost) w in
  (renamed_paths (self w) = Some ["/tmp/b"]
   ∧ differing (picked_paths (self w)) ["/tmp/b"] = ("/tmp/a", "/tmp/b") :: []
   ∧ (∀ p' r', (p', r') ∈ differing (picked_paths (self w)) ["/tmp/b"] →
               @entry LiteralHost r' ≠ @entry LiteralHost "/tmp/a")
   ∧ @apply_renaming LiteralHost w = (w1, inr tt))
  ∧ is_apply_enabled (self w1) = true
  ∧ @apply_renaming LiteralHost w1 = (w1, inl OSError).
Proof.
  intros w w1.
  assert (differing (picked_paths (self w)) ["/tmp/b"] = ("/tmp/a", "/tmp/b") :: [])
    as Hdiffering by (vm_compute; reflexivity).
  assert (∀ p' r', (p', r') ∈ differing (picked_paths (self w)) ["/tmp/b"] →
                   @entry LiteralHost r' ≠ @entry LiteralHost "/tmp/a") as Hother.
  { intros p' r' Hin. rewrite Hdiffering in Hin.
    apply elem_of_cons in Hin as [[= -> ->]|Hin%elem_of_nil]; [|done].
    vm_compute. discriminate. }
  split; [split_and!; first [exact Hdiffering|exact Hother|vm_compute; reflexivity]|].
  split; [vm_compute; reflexivity|].
  apply (@apply_renaming_twice LiteralHost w w1 ["/tmp/b"] "/tmp/a" "/tmp/b" []);
    first [exact Hdiffering|exact Hother|vm_compute; reflexivity].
Defined.

Lemma rename_using_stem_absolute_witness :
  let w := world initial_model ∅ in
  (_root (Path.of_str "/tmp/a.txt") ≠ ""
   ∧ Path.name (Path.of_str "/tmp/a.txt") ≠ ""
   ∧ LiteralRe.sub "a" "c" (Path.stem (Path.of_str "/tmp/a.txt")) = inr "c"
   ∧ plain ("c" +:+ Path.suffix (Path.of_str "/tmp/a.txt")) = true)
  ∧ ∃ renamed,
      @_rename_using_stem LiteralHost "a" "c" "/tmp/a.txt" w
      = (mkWorld (self w) (fs w)
           (re_log w ++ [sub_call "c" (Path.stem (Path.of_str "/tmp/a.txt"))]),
         inr renamed)
      ∧ Path.parent (Path.of_str renamed) = Path.parent (Path.of_str "/tmp/a.txt")
      ∧ Path.name (Path.of_str renamed) = "c" +:+ Path.suffix (Path.of_str "/tmp/a.txt").
Proof.
  intros w. split.
  - split_and!; first [vm_compute; reflexivity|vm_compute; discriminate].
  - apply (@rename_using_stem_absolute LiteralHost "a" "c" "/tmp/a.txt" "c" w);
      first [vm_compute; reflexivity|vm_compute; discriminate].
Defined.

(** ["d/a.txt"] becomes ["d/d/c.txt"]. *)
Lemma rename_using_stem_relative_witness :
  let w := world initial_model ∅ in
  (_root (Path.of_str "d/a.txt") = ""
   ∧ Path.name (Path.of_str "d/a.txt") ≠ ""
   ∧ LiteralRe.sub "a" "c" (Path.stem (Path.of_str "d/a.txt")) = inr "c"
   ∧ plain ("c" +:+ Path.suffix (Path.of_str "d/a.txt")) = true)
  ∧ (@_rename_using_stem LiteralHost "a" "c" "d/a.txt" w).2 = inr "d/d/c.txt"
  ∧ ∃ renamed,
      @_rename_using_stem LiteralHost "a" "c" "d/a.txt" w
      = (mkWorld (self w) (fs w)
           (re_log w ++ [sub_call "c" (Path.stem (Path.of_str "d/a.txt"))]),
         inr renamed)
      ∧ Path.of_str renamed
        = mkPath "" (_parts (Path.parent (Path.of_str "d/a.txt"))
                     ++ _parts (Path.parent (Path.of_str "d/a.txt"))
                     ++ ["c" +:+ Path.suffix (Path.of_str "d/a.txt")]).
Proof.
  intros w. split.
  - split_and!; first [vm_compute; reflexivity|vm_compute; discriminate].
  - split; [vm_compute; reflexivity|].
    apply (@rename_using_stem_relative LiteralHost "a" "c" "d/a.txt" "c" w);
      first [vm_compute; reflexivity|vm_compute; discriminate].
Defined.

Lemma rename_using_stem_no_name_witness :
  (Path.name (Path.of_str "/") = ""
   ∧ LiteralRe.sub "a" "b" "" = inr "")
  ∧ @_rename_result LiteralHost "a" "/" "b" STEM = inl ValueError.
Proof.
  split.
  - split; vm_compute; reflexivity.
  - apply (@rename_using_stem_no_name LiteralHost "a" "b" "/" ""); vm_compute; reflexivity.
Defined.

Lemma renamed_path_printed_witness :
  (NAME ≠ FULL
   ∧ @_rename_result LiteralHost "a" "/tmp//a" "b" NAME = inr "/tmp/b")
  ∧ Path.str (Path.of_str "/tmp/b") = "/tmp/b".
Proof.
  split.
  - split; [discriminate|vm_compute; reflexivity].
  - apply (@renamed_path_printed LiteralHost "a" "b" "/tmp//a" "/tmp/b" NAME);
      [discriminate|vm_compute; reflexivity].
Defined.

Lemma flagged_entry_iff_witness :
  let files : gmap string node := {[ "/tmp/a" := File 1; "/tmp/b" := File 2 ]} in
  let renamed := ["/tmp/b"; "/tmp/b"] in
  let picked := ["/tmp/a"; "/tmp/b"] in
  @exists_answers LiteralHost files (zip picked renamed)
  ∧ ∃ found,
      @_detect_renamed_paths_mistakes LiteralHost files renamed picked = inr found
      ∧ ∀ i,
          is_Some (indexed_rename_destination_mistakes found !! i)
          ↔ ∃ p r,
              picked !! i = Some p ∧ renamed !! i = Some r
              ∧ ((∃ j, j ≠ i ∧ j < length picked ∧ renamed !! j = Some r)
                 ∨ posix_validate_filepath r = false
                 ∨ (r ≠ p ∧ @path_exists LiteralHost files r = inr true)).
Proof.
  intros files renamed picked.
  assert (@exists_answers LiteralHost files (zip picked renamed)) as Hanswers by answers.
  split; [exact Hanswers|].
  apply (@flagged_entry_iff LiteralHost files renamed picked Hanswers).
Defined.
